(** * Verification of src/agents/qa_agent.py (the Ansible QA agent)

    Shallow embedding of the custom-rule scanner [apply_custom_rules], the
    ansible-lint output normaliser [parse_ansible_lint_output], the report
    writer [generate_report], the JSON encoder/decoder it relies on, and the
    [__main__] pipeline.

    Data model.
    - A Python [str] is a list of Unicode code points ([pystr := list Z]).
    - A JSON value as Python holds it after [json.loads] is [json]; a dict is
      an association list whose keys are distinct and kept in insertion order
      (Python dicts preserve insertion order).
    - A Python float is kept as the text of the literal it was parsed from;
      its double value is not modelled.

    Library behaviour the repository does not implement is a Section
    variable: [re.compile] (with re.IGNORECASE), [str.upper], [repr] of a
    float and [str.isprintable] on a non-ASCII code point. *)

From Stdlib Require Import ZArith List Bool Lia Sorted.
From Stdlib Require Ascii String.
Import String.StringSyntax.
Import ListNotations.

Open Scope Z_scope.
Open Scope list_scope.

(** ** Python strings *)

Definition pystr := list Z.

(** A Rocq string literal read as a Python [str] (ASCII literals only). *)
Fixpoint lit (s : String.string) : pystr :=
  match s with
  | String.EmptyString => []
  | String.String c s' => Z.of_nat (Ascii.nat_of_ascii c) :: lit s'
  end.
Arguments lit s%_string_scope.

Fixpoint str_eqb (a b : pystr) : bool :=
  match a, b with
  | [], [] => true
  | x :: a', y :: b' => (x =? y) && str_eqb a' b'
  | _, _ => false
  end.

(** ** JSON values as Python holds them *)

Unset Elimination Schemes.
Inductive json : Type :=
| JNull : json                          (* None *)
| JBool : bool -> json                  (* True / False *)
| JInt : Z -> json                      (* int *)
| JFloat : pystr -> json                (* float, kept as its literal text *)
| JStr : pystr -> json                  (* str *)
| JArr : list json -> json              (* list *)
| JObj : list (pystr * json) -> json.   (* dict, in insertion order *)
Set Elimination Schemes.

(** [d.get(k)] on a dict: the value stored under [k], if any. *)
Fixpoint dict_get (d : list (pystr * json)) (k : pystr) : option json :=
  match d with
  | [] => None
  | (k', v) :: d' => if str_eqb k k' then Some v else dict_get d' k
  end.

(** [d.get(k, default)] on a dict. *)
Definition dict_get_or (d : list (pystr * json)) (k : pystr) (default : json) : json :=
  match dict_get d k with
  | Some v => v
  | None => default
  end.

(** [d[k] = v]: an existing key keeps its position and takes the new value,
    a new key goes to the end. *)
Fixpoint dict_set (d : list (pystr * json)) (k : pystr) (v : json)
  : list (pystr * json) :=
  match d with
  | [] => [(k, v)]
  | (k', v') :: d' =>
      if str_eqb k k' then (k', v) :: d' else (k', v') :: dict_set d' k v
  end.

(** ** Text helpers of the Python runtime *)

(** Code points on which [str.splitlines] breaks. *)
Definition is_line_break (c : Z) : bool :=
  (c =? 10) || (c =? 11) || (c =? 12) || (c =? 13) || (c =? 28) ||
  (c =? 29) || (c =? 30) || (c =? 133) || (c =? 8232) || (c =? 8233).

(** [str.splitlines()]: "\r\n" is one break; no empty last line. [cur] is
    the current line, reversed. *)
Fixpoint splitlines_aux (s : pystr) (cur : pystr) : list pystr :=
  match s with
  | [] => match cur with [] => [] | _ => [rev cur] end
  | c :: rest =>
      if c =? 13 then
        match rest with
        | c' :: rest' =>
            if c' =? 10 then rev cur :: splitlines_aux rest' []
            else rev cur :: splitlines_aux rest []
        | [] => [rev cur]
        end
      else if is_line_break c then rev cur :: splitlines_aux rest []
      else splitlines_aux rest (c :: cur)
  end.

Definition splitlines (s : pystr) : list pystr := splitlines_aux s [].

(** [str.isspace] on one code point (the Unicode White_Space characters
    Python recognises). *)
Definition is_space (c : Z) : bool :=
  ((9 <=? c) && (c <=? 13)) || ((28 <=? c) && (c <=? 32)) ||
  (c =? 133) || (c =? 160) || (c =? 5760) ||
  ((8192 <=? c) && (c <=? 8202)) || (c =? 8232) || (c =? 8233) ||
  (c =? 8239) || (c =? 8287) || (c =? 12288).

Fixpoint lstrip (s : pystr) : pystr :=
  match s with
  | c :: r => if is_space c then lstrip r else s
  | [] => []
  end.

(** [str.strip()] *)
Definition strip (s : pystr) : pystr := rev (lstrip (rev (lstrip s))).

(** ** The JSON decoder: [json.loads] (CPython's _json scanner) *)

(** Whitespace skipped between JSON tokens. *)
Definition is_ws (c : Z) : bool := (c =? 32) || (c =? 9) || (c =? 10) || (c =? 13).

Fixpoint skip_ws (s : pystr) : pystr :=
  match s with
  | c :: r => if is_ws c then skip_ws r else s
  | [] => []
  end.

Definition hex_val (c : Z) : option Z :=
  if (48 <=? c) && (c <=? 57) then Some (c - 48)
  else if (97 <=? c) && (c <=? 102) then Some (c - 87)
  else if (65 <=? c) && (c <=? 70) then Some (c - 55)
  else None.

Definition hex4 (a b c d : Z) : option Z :=
  match hex_val a, hex_val b, hex_val c, hex_val d with
  | Some w, Some x, Some y, Some z => Some (((w * 16 + x) * 16 + y) * 16 + z)
  | _, _, _, _ => None
  end.

Definition is_high_surrogate (u : Z) : bool := (55296 <=? u) && (u <=? 56319).
Definition is_low_surrogate (u : Z) : bool := (56320 <=? u) && (u <=? 57343).
Definition join_surrogates (hi lo : Z) : Z := 65536 + (hi - 55296) * 1024 + (lo - 56320).

(** The one-character escapes: backslash followed by a double quote, a
    backslash, a slash, b, f, n, r or t. *)
Definition simple_escape (e : Z) : option Z :=
  if e =? 34 then Some 34 else if e =? 92 then Some 92
  else if e =? 47 then Some 47 else if e =? 98 then Some 8
  else if e =? 102 then Some 12 else if e =? 110 then Some 10
  else if e =? 114 then Some 13 else if e =? 116 then Some 9
  else None.

Definition cons_res (c : Z) (r : option (pystr * pystr)) : option (pystr * pystr) :=
  match r with
  | Some (x, rest) => Some (c :: x, rest)
  | None => None
  end.

(** [scanstring] (strict mode), started after the opening quote: the decoded
    string and the input after the closing quote. A \uXXXX high surrogate
    followed by a \uXXXX low surrogate is joined into one code point; a raw
    control character is an error. *)
Fixpoint scanstring (s : pystr) : option (pystr * pystr) :=
  match s with
  | [] => None
  | c :: r =>
      if c =? 34 then Some ([], r)
      else if c =? 92 then
        match r with
        | [] => None
        | e :: r1 =>
            if e =? 117 then
              match r1 with
              | h1 :: h2 :: h3 :: h4 :: r2 =>
                  match hex4 h1 h2 h3 h4 with
                  | None => None
                  | Some u =>
                      if is_high_surrogate u then
                        match r2 with
                        | b :: v :: k1 :: k2 :: k3 :: k4 :: r3 =>
                            if (b =? 92) && (v =? 117) then
                              match hex4 k1 k2 k3 k4 with
                              | None => None
                              | Some u2 =>
                                  if is_low_surrogate u2
                                  then cons_res (join_surrogates u u2) (scanstring r3)
                                  else cons_res u (scanstring r2)
                              end
                            else cons_res u (scanstring r2)
                        | _ => cons_res u (scanstring r2)
                        end
                      else cons_res u (scanstring r2)
                  end
              | _ => None
              end
            else
              match simple_escape e with
              | Some c' => cons_res c' (scanstring r1)
              | None => None
              end
        end
      else if c <? 32 then None
      else cons_res c (scanstring r)
  end.

Definition is_digit (c : Z) : bool := (48 <=? c) && (c <=? 57).

Fixpoint span_digits (s : pystr) : pystr * pystr :=
  match s with
  | c :: r =>
      if is_digit c then let '(ds, rest) := span_digits r in (c :: ds, rest)
      else ([], s)
  | [] => ([], [])
  end.

Definition digits_value (ds : pystr) : Z :=
  fold_left (fun acc d => acc * 10 + (d - 48)) ds 0.

(** [sys.get_int_max_str_digits()] default: a longer int literal raises
    ValueError. *)
Definition int_max_str_digits : Z := 4300.

(** Optional fraction: a dot and one or more digits. *)
Definition match_frac (s : pystr) : pystr * pystr :=
  match s with
  | dot :: d :: r =>
      if (dot =? 46) && is_digit d
      then let '(ds, r') := span_digits r in (dot :: d :: ds, r')
      else ([], s)
  | _ => ([], s)
  end.

(** Optional exponent [eE][-+]?digit+; without digits nothing is taken. *)
Definition match_exp (s : pystr) : pystr * pystr :=
  match s with
  | e :: r =>
      if (e =? 101) || (e =? 69) then
        let '(sg, r1) :=
          match r with
          | c :: r' => if (c =? 43) || (c =? 45) then ([c], r') else ([], r)
          | [] => ([], r)
          end in
        let '(ds, r2) := span_digits r1 in
        match ds with
        | [] => ([], s)
        | _ => (e :: sg ++ ds, r2)
        end
      else ([], s)
  | [] => ([], s)
  end.

(** [_match_number_unicode]: an optional minus, then 0 or a nonzero digit
    followed by digits, then the optional fraction and exponent. With neither
    it is an int, otherwise a float. *)
Definition match_number (s : pystr) : option (json * pystr) :=
  let '(sign, s1) :=
    match s with
    | c :: r => if c =? 45 then ([45], r) else ([], s)
    | [] => ([], s)
    end in
  match s1 with
  | [] => None
  | c :: r =>
      let int_part :=
        if (49 <=? c) && (c <=? 57) then
          let '(ds, r2) := span_digits r in Some (c :: ds, r2)
        else if c =? 48 then Some ([48], r)
        else None in
      match int_part with
      | None => None
      | Some (ip, r2) =>
          let '(frac, r3) := match_frac r2 in
          let '(ex, r4) := match_exp r3 in
          match frac, ex with
          | [], [] =>
              if Z.of_nat (length ip) >? int_max_str_digits then None
              else Some (JInt (match sign with [] => digits_value ip
                                              | _ => - digits_value ip end), r2)
          | _, _ => Some (JFloat (sign ++ ip ++ frac ++ ex), r4)
          end
      end
  end.

Fixpoint strip_prefix (p s : pystr) : option pystr :=
  match p with
  | [] => Some s
  | x :: p' =>
      match s with
      | y :: s' => if x =? y then strip_prefix p' s' else None
      | [] => None
      end
  end.

(** The named constants null, true, false, NaN, Infinity, -Infinity. *)
Definition match_constant (s : pystr) : option (json * pystr) :=
  match strip_prefix (lit "null") s with Some r => Some (JNull, r) | None =>
  match strip_prefix (lit "true") s with Some r => Some (JBool true, r) | None =>
  match strip_prefix (lit "false") s with Some r => Some (JBool false, r) | None =>
  match strip_prefix (lit "NaN") s with Some r => Some (JFloat (lit "NaN"), r) | None =>
  match strip_prefix (lit "Infinity") s with
  | Some r => Some (JFloat (lit "Infinity"), r) | None =>
  match strip_prefix (lit "-Infinity") s with
  | Some r => Some (JFloat (lit "-Infinity"), r) | None => None
  end end end end end end.

(** [scan_once], [_parse_array] and [_parse_object]; [fuel] bounds the depth
    of the call chain. Keys of an object go through [dict_set]: a repeated
    key keeps its first position and its last value. *)
Fixpoint scan_once (fuel : nat) (s : pystr) {struct fuel} : option (json * pystr) :=
  match fuel with
  | O => None
  | S f =>
      match s with
      | [] => None
      | c :: r =>
          if c =? 34 then
            match scanstring r with
            | Some (x, r') => Some (JStr x, r')
            | None => None
            end
          else if c =? 123 then
            match skip_ws r with
            | c' :: r' => if c' =? 125 then Some (JObj [], r')
                          else parse_object f (c' :: r') []
            | [] => None
            end
          else if c =? 91 then
            match skip_ws r with
            | c' :: r' => if c' =? 93 then Some (JArr [], r')
                          else parse_array f (c' :: r') []
            | [] => None
            end
          else
            match match_constant s with
            | Some x => Some x
            | None => match_number s
            end
      end
  end
with parse_array (fuel : nat) (s : pystr) (acc : list json) {struct fuel}
  : option (json * pystr) :=
  match fuel with
  | O => None
  | S f =>
      match scan_once f s with
      | None => None
      | Some (v, r) =>
          match skip_ws r with
          | c :: r' =>
              if c =? 93 then Some (JArr (rev (v :: acc)), r')
              else if c =? 44 then parse_array f (skip_ws r') (v :: acc)
              else None
          | [] => None
          end
      end
  end
with parse_object (fuel : nat) (s : pystr) (acc : list (pystr * json)) {struct fuel}
  : option (json * pystr) :=
  match fuel with
  | O => None
  | S f =>
      match s with
      | c :: r =>
          if c =? 34 then
            match scanstring r with
            | None => None
            | Some (k, r1) =>
                match skip_ws r1 with
                | c1 :: r2 =>
                    if c1 =? 58 then
                      match scan_once f (skip_ws r2) with
                      | None => None
                      | Some (v, r3) =>
                          match skip_ws r3 with
                          | c3 :: r4 =>
                              if c3 =? 125 then Some (JObj (dict_set acc k v), r4)
                              else if c3 =? 44
                              then parse_object f (skip_ws r4) (dict_set acc k v)
                              else None
                          | [] => None
                          end
                      end
                    else None
                | [] => None
                end
            end
          else None
      | [] => None
      end
  end.

(** [json.loads(s)]: [None] when it raises (JSONDecodeError, or ValueError
    for an over-long int). Every call in the chain consumes input or is
    followed by one that does, so [2 * length s + 2] is enough fuel. *)
Definition json_loads (s : pystr) : option json :=
  match scan_once (2 * length s + 2) (skip_ws s) with
  | Some (v, r) => match skip_ws r with [] => Some v | _ => None end
  | None => None
  end.

(** ** Custom rules *)

(** A rule as [load_custom_rules] accepts it: the four keys are present.
    The values of "id", "description" and "severity" are copied verbatim
    into findings, so they stay JSON values; "pattern" is a regex string. *)
Record rule : Type := mkRule {
  rule_id : json;
  rule_pattern : pystr;
  rule_description : json;
  rule_severity : json
}.

Section Runtime.

(** [re.compile(p, re.IGNORECASE)]: [None] when it raises [re.error],
    otherwise the compiled pattern's [search], [true] when it finds a match.
    [re.search(p, line, re.IGNORECASE)] is [re.compile] followed by
    [search], so whether it raises depends on the pattern only. *)
Variable re_compile : pystr -> option (pystr -> bool).

(** [s.upper()] on a [str] (Unicode case mapping). *)
Variable py_upper : pystr -> pystr.

(** [repr(float(t))] for the float literal [t]. *)
Variable float_repr : pystr -> pystr.

(** [str.isprintable] on a code point above 0x7f. *)
Variable uni_printable : Z -> bool.

(** One finding of [apply_custom_rules] (lines 67-74). *)
Definition custom_finding (r : rule) (line : pystr) (line_num : Z)
    (playbook_path : pystr) : json :=
  JObj [(lit "rule_id", rule_id r);
        (lit "severity", rule_severity r);
        (lit "description", rule_description r);
        (lit "file", JStr playbook_path);
        (lit "line", JInt line_num);
        (lit "match", JStr (strip line))].

(** Inner loop [for rule in rules] on one line. [re.error] is caught and the
    rule skipped ([continue]). *)
Fixpoint check_rules (rules : list rule) (line : pystr) (line_num : Z)
    (playbook_path : pystr) : list json :=
  match rules with
  | [] => []
  | r :: rest =>
      match re_compile (rule_pattern r) with
      | None => check_rules rest line line_num playbook_path
      | Some search =>
          if search line
          then custom_finding r line line_num playbook_path
               :: check_rules rest line line_num playbook_path
          else check_rules rest line line_num playbook_path
      end
  end.

(** Outer loop [for i, line in enumerate(content.splitlines())]; [i] is the
    index of the first line of [lines]. *)
Fixpoint scan_lines (lines : list pystr) (i : Z) (rules : list rule)
    (playbook_path : pystr) : list json :=
  match lines with
  | [] => []
  | line :: rest =>
      check_rules rules line (i + 1) playbook_path
      ++ scan_lines rest (i + 1) rules playbook_path
  end.

Definition apply_custom_rules (content : pystr) (rules : list rule)
    (playbook_path : pystr) : list json :=
  scan_lines (splitlines content) 0 rules playbook_path.

(** ** Normalising ansible-lint output *)

(** Decimal digits of [n > 0], prepended to [acc]; [fuel] is a bound on the
    number of digits. *)
Fixpoint pos_digits (fuel : nat) (n : Z) (acc : pystr) : pystr :=
  match fuel with
  | O => acc
  | S f =>
      if n <? 10 then (48 + n) :: acc
      else pos_digits f (n / 10) ((48 + n mod 10) :: acc)
  end.

(** [int.__repr__]: decimal, with a leading minus when negative. *)
Definition int_repr (z : Z) : pystr :=
  if z <? 0 then 45 :: pos_digits (Z.to_nat (Z.log2 (- z)) + 1) (- z) []
  else pos_digits (Z.to_nat (Z.log2 z) + 1) z [].

Definition hex_digit (n : Z) : Z := if n <? 10 then 48 + n else 87 + n.

(** [n] as [w] lowercase hexadecimal digits. *)
Fixpoint hex_fixed (w : nat) (n : Z) : pystr :=
  match w with
  | O => []
  | S w' => hex_fixed w' (n / 16) ++ [hex_digit (n mod 16)]
  end.

(** One code point as [repr] of a str writes it, [q] being the quote. *)
Definition repr_char (q c : Z) : pystr :=
  if (c =? q) || (c =? 92) then [92; c]
  else if c =? 9 then lit "\t"
  else if c =? 10 then lit "\n"
  else if c =? 13 then lit "\r"
  else if (c <? 32) || (c =? 127) then lit "\x" ++ hex_fixed 2 c
  else if c <? 127 then [c]
  else if uni_printable c then [c]
  else if c <=? 255 then lit "\x" ++ hex_fixed 2 c
  else if c <=? 65535 then lit "\u" ++ hex_fixed 4 c
  else lit "\U" ++ hex_fixed 8 c.

(** [repr] of a str: single quotes unless the text has a single quote and
    no double quote. *)
Definition str_repr (s : pystr) : pystr :=
  let q := if existsb (Z.eqb 39) s && negb (existsb (Z.eqb 34) s) then 34 else 39 in
  [q] ++ flat_map (repr_char q) s ++ [q].

Fixpoint join (sep : pystr) (l : list pystr) : pystr :=
  match l with
  | [] => []
  | [x] => x
  | x :: r => x ++ sep ++ join sep r
  end.

(** [repr] of a value. *)
Fixpoint py_repr (v : json) : pystr :=
  match v with
  | JNull => lit "None"
  | JBool true => lit "True"
  | JBool false => lit "False"
  | JInt z => int_repr z
  | JFloat t => float_repr t
  | JStr s => str_repr s
  | JArr l => lit "[" ++ join (lit ", ") (map py_repr l) ++ lit "]"
  | JObj d =>
      lit "{" ++ join (lit ", ") (map (fun kv => str_repr (fst kv) ++ lit ": " ++ py_repr (snd kv)) d)
      ++ lit "}"
  end.

(** [str(v)], as an f-string substitutes [v]. *)
Definition py_str (v : json) : pystr :=
  match v with
  | JStr s => s
  | _ => py_repr v
  end.

(** [o.get(k, default)]: [None] when [o] is not a dict (AttributeError). *)
Definition py_get (o : json) (k : pystr) (default : json) : option json :=
  match o with
  | JObj d => Some (dict_get_or d k default)
  | _ => None
  end.

(** [v.upper()]: [None] when [v] is not a str (AttributeError). *)
Definition upper_of (v : json) : option pystr :=
  match v with
  | JStr s => Some (py_upper s)
  | _ => None
  end.

(** The body of [for item in lint_results] (lines 110-126): the issue built
    from [item], or [None] when a statement raises. *)
Definition lint_issue (item : json) (playbook_path : pystr) : option json :=
  match py_get item (lit "rule") (JObj []) with None => None | Some rule_info =>
  match py_get rule_info (lit "id") (JStr (lit "UnknownRuleID")) with None => None | Some rid =>
  match py_get item (lit "message") (JStr (lit "No description provided.")) with None => None | Some description =>
  match py_get rule_info (lit "severity") (JStr (lit "medium")) with None => None | Some sev =>
  match upper_of sev with None => None | Some severity =>
  match py_get item (lit "filename") (JStr playbook_path) with None => None | Some filename =>
  match py_get item (lit "linenumber") JNull with None => None | Some line_number =>
  Some (JObj [(lit "rule_id", JStr (lit "ansible-lint:" ++ py_str rid));
              (lit "description", description);
              (lit "severity", JStr severity);
              (lit "file", filename);
              (lit "line", line_number)])
  end end end end end end end.

(** The loop: [issues] grows one item at a time; the first exception leaves
    the loop, is caught by [except Exception] (line 133), and the issues
    built so far are returned. *)
Fixpoint collect_issues (items : list json) (playbook_path : pystr) : list json :=
  match items with
  | [] => []
  | item :: rest =>
      match lint_issue item playbook_path with
      | Some issue => issue :: collect_issues rest playbook_path
      | None => []
      end
  end.

(** [parse_ansible_lint_output(json_string, playbook_path)];
    [json_string] is [None] when the linter could not be run. *)
Definition parse_ansible_lint_output (json_string : option pystr)
    (playbook_path : pystr) : list json :=
  match json_string with
  | None => []
  | Some [] => []
  | Some s =>
      match json_loads s with
      | None => []
      | Some (JArr lint_results) => collect_issues lint_results playbook_path
      | Some _ => []
      end
  end.

(** ** The JSON encoder: [json.dump(report, f, indent=4)] *)

Definition u_escape (n : Z) : pystr := lit "\u" ++ hex_fixed 4 n.

(** [py_encode_basestring_ascii] on one code point (ensure_ascii=True):
    printable ASCII other than the quote and the backslash is kept, a code
    point above 0xFFFF becomes a surrogate pair. *)
Definition ascii_escape (c : Z) : pystr :=
  if (32 <=? c) && (c <=? 126) && negb (c =? 92) && negb (c =? 34) then [c]
  else if c =? 92 then [92; 92]
  else if c =? 34 then [92; 34]
  else if c =? 8 then lit "\b"
  else if c =? 12 then lit "\f"
  else if c =? 10 then lit "\n"
  else if c =? 13 then lit "\r"
  else if c =? 9 then lit "\t"
  else if 65536 <=? c then
    u_escape (55296 - 64 + Z.shiftr c 10) ++ u_escape (56320 + Z.land c 1023)
  else u_escape c.

Definition encode_str (s : pystr) : pystr := [34] ++ flat_map ascii_escape s ++ [34].

(** [floatstr] of the encoder (allow_nan=True). *)
Definition floatstr (t : pystr) : pystr :=
  let r := float_repr t in
  if str_eqb r (lit "nan") then lit "NaN"
  else if str_eqb r (lit "inf") then lit "Infinity"
  else if str_eqb r (lit "-inf") then lit "-Infinity"
  else r.

(** A newline and [lvl] indents of four spaces. *)
Definition newline_indent (lvl : nat) : pystr := 10 :: concat (repeat (lit "    ") lvl).

(** [_iterencode] with indent=4 and separators (",", ": "), at nesting
    level [lvl]. *)
Fixpoint encode (lvl : nat) (v : json) : pystr :=
  match v with
  | JNull => lit "null"
  | JBool true => lit "true"
  | JBool false => lit "false"
  | JInt z => int_repr z
  | JFloat t => floatstr t
  | JStr s => encode_str s
  | JArr [] => lit "[]"
  | JArr l =>
      lit "[" ++ newline_indent (S lvl)
      ++ join ([44] ++ newline_indent (S lvl)) (map (encode (S lvl)) l)
      ++ newline_indent lvl ++ lit "]"
  | JObj [] => lit "{}"
  | JObj d =>
      lit "{" ++ newline_indent (S lvl)
      ++ join ([44] ++ newline_indent (S lvl))
              (map (fun kv => encode_str (fst kv) ++ lit ": " ++ encode (S lvl) (snd kv)) d)
      ++ newline_indent lvl ++ lit "}"
  end.

(** [int.__repr__] raises ValueError past [int_max_str_digits] digits. *)
Fixpoint ints_printable (v : json) : bool :=
  match v with
  | JInt z => Z.abs z <? 10 ^ int_max_str_digits
  | JArr l => forallb ints_printable l
  | JObj d => forallb (fun kv => ints_printable (snd kv)) d
  | _ => true
  end.

(** ** Writing the report *)

Definition report_status (all_issues : list json) : pystr :=
  match all_issues with
  | [] => lit "PASS"
  | _ => lit "FAIL"
  end.

(** The dict built by [generate_report] (lines 149-157). *)
Definition build_report (playbook_path : pystr) (all_issues : list json)
    (report_timestamp : pystr) : json :=
  JObj [(lit "report_timestamp", JStr report_timestamp);
        (lit "playbook_path", JStr playbook_path);
        (lit "status", JStr (report_status all_issues));
        (lit "issues", JArr all_issues)].

Fixpoint rstrip_slash (rev_p : pystr) : pystr :=
  match rev_p with
  | c :: r => if c =? 47 then rstrip_slash r else rev_p
  | [] => []
  end.

Fixpoint drop_to_slash (rev_p : pystr) : pystr :=
  match rev_p with
  | c :: r => if c =? 47 then rev_p else drop_to_slash r
  | [] => []
  end.

(** [os.path.dirname] (posixpath): the text up to the last slash, trailing
    slashes removed unless it is made of slashes only. *)
Definition dirname (p : pystr) : pystr :=
  let head := drop_to_slash (rev p) in
  match head with
  | [] => []
  | _ => if forallb (Z.eqb 47) head then rev head else rev (rstrip_slash head)
  end.

(** Nesting depth of a value: [json.dump] with [indent] set encodes with
    the pure-Python encoder, one nested generator per list or dict level. *)
Fixpoint json_depth (v : json) : nat :=
  match v with
  | JArr l => S (fold_right (fun x m => Nat.max (json_depth x) m) 0%nat l)
  | JObj d => S (fold_right (fun kv m => Nat.max (json_depth (snd kv)) m) 0%nat d)
  | _ => 0%nat
  end.

(** The file system and interpreter as [generate_report] meets them: whether
    [os.makedirs(d, exist_ok=True)] succeeds on a nonempty [d], whether
    [open(p, 'w')] and writing the text to it succeed, and the deepest
    nesting [json.dump] encodes before the recursion limit raises
    RecursionError. *)
Record io_env : Type := mkIo {
  makedirs_ok : pystr -> bool;
  write_ok : pystr -> bool;
  dump_max_depth : nat
}.

(** What [generate_report] leaves behind. It returns [None] to its caller
    in both cases: an OSError or any other exception is caught and logged. *)
Inductive report_outcome : Type :=
| ReportWritten (path text : pystr)
| ReportFailed.

(** [generate_report(playbook_path, all_issues, output_report_path)] at time
    [report_timestamp]. [os.makedirs("")] raises FileNotFoundError. *)
Definition generate_report (io : io_env) (playbook_path : pystr)
    (all_issues : list json) (output_report_path : pystr)
    (report_timestamp : pystr) : report_outcome :=
  let report := build_report playbook_path all_issues report_timestamp in
  let dir_ok :=
    match dirname output_report_path with
    | [] => false
    | d => makedirs_ok io d
    end in
  if dir_ok && write_ok io output_report_path && ints_printable report
     && Nat.leb (json_depth report) (dump_max_depth io)
  then ReportWritten output_report_path (encode 0 report)
  else ReportFailed.

(** ** The [__main__] pipeline *)

(** How the [ansible-lint] subprocess went. *)
Inductive lint_run : Type :=
| LintFinished (stdout stderr : pystr) (returncode : Z)
| LintNotFound
| LintSpawnFailed (msg : pystr).

(** [run_ansible_lint] (lines 173-200): (stdout, stderr, exit code), with
    the sentinels -1 (not found) and -2 (other failure). *)
Definition run_ansible_lint (r : lint_run) : option pystr * pystr * Z :=
  match r with
  | LintFinished out err rc => (Some out, err, rc)
  | LintNotFound =>
      (None, lit "Error: 'ansible-lint' command not found. Please ensure it is installed and in your PATH.", -1)
  | LintSpawnFailed msg =>
      (None, lit "An unexpected error occurred while running ansible-lint: " ++ msg, -2)
  end.

(** The outside world of one run. [env_rules] is what [load_custom_rules]
    returns, [None] when it calls [sys.exit(1)]; [env_playbook_text] is what
    [read_playbook_content] returns, [None] when it calls [sys.exit(1)]. *)
Record run_env : Type := mkEnv {
  env_playbook_exists : bool;
  env_lint : lint_run;
  env_rules : option (list rule);
  env_playbook_text : option pystr;
  env_io : io_env;
  env_now : pystr
}.

(** The observable result of a run: the exit status, the issue list handed
    to [generate_report] and what [generate_report] left behind. *)
Record run_result : Type := mkResult {
  exit_code : Z;
  merged_issues : option (list json);
  report_file : option report_outcome
}.

Definition early_exit : run_result := mkResult 1 None None.

(** [__main__] (lines 229-323). The exit-code branches after the linter
    only log. Reaching the end of the [try] block, the process exits with
    status 0. *)
Definition main (playbook_file output_report_path : pystr) (e : run_env) : run_result :=
  if negb (env_playbook_exists e) then early_exit
  else
    let '(lint_stdout, _, _) := run_ansible_lint (env_lint e) in
    let ansible_lint_issues := parse_ansible_lint_output lint_stdout playbook_file in
    match env_rules e with
    | None => early_exit
    | Some custom_rules =>
        match env_playbook_text e with
        | None => early_exit
        | Some playbook_content =>
            let custom_issues :=
              apply_custom_rules playbook_content custom_rules playbook_file in
            let all_issues := ansible_lint_issues ++ custom_issues in
            let out := generate_report (env_io e) playbook_file all_issues
                         output_report_path (env_now e) in
            mkResult 0 (Some all_issues) (Some out)
        end
    end.

(** ** Loading the rules file and scanning with the raw rules *)

(** [k in s] on a str: whether [p] occurs in [s] as a substring. *)
Fixpoint is_substring (p s : pystr) : bool :=
  match strip_prefix p s with
  | Some _ => true
  | None => match s with [] => false | _ :: s' => is_substring p s' end
  end.

(** [k in container] for a str [k]: key membership in a dict, equality with
    an element of a list, substring of a str; [None] when [in] raises
    TypeError (a number, a bool or None is not a container). *)
Definition py_contains (container : json) (k : pystr) : option bool :=
  match container with
  | JObj d => Some (match dict_get d k with Some _ => true | None => false end)
  | JArr l => Some (existsb (fun v => match v with JStr s => str_eqb s k | _ => false end) l)
  | JStr s => Some (is_substring k s)
  | _ => None
  end.

Definition required_keys : list pystr :=
  [lit "id"; lit "pattern"; lit "description"; lit "severity"].

(** [all(k in rule for k in ks)]: stops at the first [False]; [None] when
    an [in] test raises. *)
Fixpoint all_keys_in (r : json) (ks : list pystr) : option bool :=
  match ks with
  | [] => Some true
  | k :: ks' =>
      match py_contains r k with
      | None => None
      | Some false => Some false
      | Some true => all_keys_in r ks'
      end
  end.

(** [load_custom_rules(rules_path)] (lines 16-40) on the text of the rules
    file, [None] when opening or reading it raises. The result is the list
    of rules, or [None] when the function calls [sys.exit(1)]: on a read
    error, a JSON error, a value that is not a list, a rule failing the key
    test, or an exception raised by the test. *)
Definition load_custom_rules (file : option pystr) : option (list json) :=
  match file with
  | None => None
  | Some text =>
      match json_loads text with
      | Some (JArr rules) =>
          if forallb (fun r => match all_keys_in r required_keys with
                               | Some true => true
                               | _ => false
                               end) rules
          then Some rules else None
      | _ => None
      end
  end.

(** [rule[k]]: [None] when it raises (KeyError on a dict without [k],
    TypeError on anything else indexed by a str). *)
Definition py_index (o : json) (k : pystr) : option json :=
  match o with
  | JObj d => dict_get d k
  | _ => None
  end.

(** The inner loop of [apply_custom_rules] on the rules as loaded (lines
    64-79); [None] when an exception leaves the function. Only [re.error] is
    caught: a missing key, or a pattern that is not a str (TypeError in
    [re.search]), propagates. The handler reads [rule['id']]; a finding
    reads "id", "severity" and "description". *)
Fixpoint check_rules_raw (rules : list json) (line : pystr) (line_num : Z)
    (playbook_path : pystr) : option (list json) :=
  match rules with
  | [] => Some []
  | r :: rest =>
      match py_index r (lit "pattern") with
      | Some (JStr p) =>
          match re_compile p with
          | None =>
              match py_index r (lit "id") with
              | Some _ => check_rules_raw rest line line_num playbook_path
              | None => None
              end
          | Some search =>
              if search line then
                match py_index r (lit "id"), py_index r (lit "severity"),
                      py_index r (lit "description") with
                | Some i, Some sev, Some d =>
                    match check_rules_raw rest line line_num playbook_path with
                    | Some fs => Some (custom_finding (mkRule i p d sev) line line_num
                                        playbook_path :: fs)
                    | None => None
                    end
                | _, _, _ => None
                end
              else check_rules_raw rest line line_num playbook_path
          end
      | _ => None
      end
  end.

Fixpoint scan_lines_raw (lines : list pystr) (i : Z) (rules : list json)
    (playbook_path : pystr) : option (list json) :=
  match lines with
  | [] => Some []
  | line :: rest =>
      match check_rules_raw rules line (i + 1) playbook_path with
      | None => None
      | Some fs =>
          match scan_lines_raw rest (i + 1) rules playbook_path with
          | None => None
          | Some gs => Some (fs ++ gs)
          end
      end
  end.

(** [apply_custom_rules(content, rules, playbook_path)] on the rules as
    [load_custom_rules] returns them. *)
Definition apply_custom_rules_raw (content : pystr) (rules : list json)
    (playbook_path : pystr) : option (list json) :=
  scan_lines_raw (splitlines content) 0 rules playbook_path.

(** The outside world of a run, with the rules file as text. *)
Record file_env : Type := mkFileEnv {
  fe_playbook_exists : bool;
  fe_lint : lint_run;
  fe_rules_file : option pystr;
  fe_playbook_text : option pystr;
  fe_io : io_env;
  fe_now : pystr
}.

(** [__main__] (lines 229-323) with [load_custom_rules] and
    [apply_custom_rules] on the loaded rules. An exception out of
    [apply_custom_rules] is caught by [except Exception] (line 320): exit
    status 1 and no report. *)
Definition main_files (playbook_file output_report_path : pystr) (e : file_env)
    : run_result :=
  if negb (fe_playbook_exists e) then early_exit
  else
    let '(lint_stdout, _, _) := run_ansible_lint (fe_lint e) in
    let ansible_lint_issues := parse_ansible_lint_output lint_stdout playbook_file in
    match load_custom_rules (fe_rules_file e) with
    | None => early_exit
    | Some custom_rules =>
        match fe_playbook_text e with
        | None => early_exit
        | Some playbook_content =>
            match apply_custom_rules_raw playbook_content custom_rules playbook_file with
            | None => early_exit
            | Some custom_issues =>
                let all_issues := ansible_lint_issues ++ custom_issues in
                let out := generate_report (fe_io e) playbook_file all_issues
                             output_report_path (fe_now e) in
                mkResult 0 (Some all_issues) (Some out)
            end
        end
    end.

End Runtime.

(** ** The run with every way out of it *)

(** What [re.search(pattern, line, re.IGNORECASE)] does with a pattern:
    [re.error] (the pattern parser rejects it), another exception
    (OverflowError for a repeat count of [2 ** 32] or more, ValueError for a
    count of more than 4300 digits, RecursionError for deeply nested
    groups), or a compiled pattern whose search on a line finds a match or
    not. *)
Inductive re_outcome : Type :=
| ReError
| ReRaises
| ReCompiled (search : pystr -> bool).

(** The interpreter where the repository calls into it: the regex engine,
    whether [print] to stdout succeeds on a text (it raises
    UnicodeEncodeError on a lone surrogate; stderr uses backslashreplace and
    does not), and the deepest nesting of lists and dicts [json.load]
    decodes before RecursionError. *)
Record py_runtime : Type := mkRuntime {
  rt_re : pystr -> re_outcome;
  rt_print_ok : pystr -> bool;
  rt_max_depth : nat
}.

Section FullRun.

Variable py_upper : pystr -> pystr.
Variable float_repr : pystr -> pystr.
Variable uni_printable : Z -> bool.
Variable rt : py_runtime.

(** The inner loop of [apply_custom_rules] (lines 64-79); [None] when an
    exception leaves the function. The [re.error] handler formats
    [rule['id']] for stderr ([str] of an int past 4300 digits raises
    ValueError); a match appends the finding and then prints it to stdout. *)
Fixpoint check_rules_full (rules : list json) (line : pystr) (line_num : Z)
    (playbook_path : pystr) : option (list json) :=
  match rules with
  | [] => Some []
  | r :: rest =>
      match py_index r (lit "pattern") with
      | Some (JStr p) =>
          match rt_re rt p with
          | ReRaises => None
          | ReError =>
              match py_index r (lit "id") with
              | Some i =>
                  if ints_printable i then check_rules_full rest line line_num playbook_path
                  else None
              | None => None
              end
          | ReCompiled search =>
              if search line then
                match py_index r (lit "id"), py_index r (lit "severity"),
                      py_index r (lit "description") with
                | Some i, Some sev, Some d =>
                    if ints_printable i
                       && rt_print_ok rt (lit "  Match found: Rule "
                                          ++ py_str float_repr uni_printable i
                                          ++ lit " on line " ++ int_repr line_num)
                    then
                      match check_rules_full rest line line_num playbook_path with
                      | Some fs => Some (custom_finding (mkRule i p d sev) line line_num
                                          playbook_path :: fs)
                      | None => None
                      end
                    else None
                | _, _, _ => None
                end
              else check_rules_full rest line line_num playbook_path
          end
      | _ => None
      end
  end.

Fixpoint scan_lines_full (lines : list pystr) (i : Z) (rules : list json)
    (playbook_path : pystr) : option (list json) :=
  match lines with
  | [] => Some []
  | line :: rest =>
      match check_rules_full rules line (i + 1) playbook_path with
      | None => None
      | Some fs =>
          match scan_lines_full rest (i + 1) rules playbook_path with
          | None => None
          | Some gs => Some (fs ++ gs)
          end
      end
  end.

(** [apply_custom_rules(content, rules, playbook_path)] (lines 58-81) with
    its two prints to stdout. *)
Definition apply_custom_rules_full (content : pystr) (rules : list json)
    (playbook_path : pystr) : option (list json) :=
  if rt_print_ok rt (lit "Applying " ++ int_repr (Z.of_nat (length rules))
                     ++ lit " custom rules to " ++ playbook_path ++ lit "...")
  then
    match scan_lines_full (splitlines content) 0 rules playbook_path with
    | Some findings =>
        if rt_print_ok rt (lit "Custom rule check finished. Found "
                           ++ int_repr (Z.of_nat (length findings))
                           ++ lit " potential issues.")
        then Some findings else None
    | None => None
    end
  else None.

(** Whether [json.loads] of [text] stays within the nesting limit; a text
    that does not decode fails in [json_loads] already. *)
Definition decode_depth_ok (text : pystr) : bool :=
  match json_loads text with
  | Some v => Nat.leb (json_depth v) (rt_max_depth rt)
  | None => true
  end.

(** [load_custom_rules(rules_path)] (lines 16-40): the checks of
    [load_custom_rules], the RecursionError of [json.load], and the print of
    line 27 inside the [try]; any of them ends in [sys.exit(1)]. *)
Definition load_custom_rules_full (rules_path : pystr) (file : option pystr)
    : option (list json) :=
  match file with
  | None => None
  | Some text =>
      if decode_depth_ok text then
        match load_custom_rules file with
        | Some rules =>
            if rt_print_ok rt (lit "Successfully loaded " ++ int_repr (Z.of_nat (length rules))
                               ++ lit " custom rules from " ++ rules_path)
            then Some rules else None
        | None => None
        end
      else None
  end.

(** [read_playbook_content(playbook_path)] (lines 43-55) on the file text
    ([None] when opening, reading or decoding it raises), with the print of
    line 48 inside the [try]. *)
Definition read_playbook_full (playbook_path : pystr) (text : option pystr) : option pystr :=
  match text with
  | Some content =>
      if rt_print_ok rt (lit "Successfully read playbook content from " ++ playbook_path)
      then Some content else None
  | None => None
  end.

(** [parse_ansible_lint_output] with the RecursionError of [json.loads],
    which its [except Exception] turns into an empty issue list. *)
Definition parse_lint_full (json_string : option pystr) (playbook_path : pystr) : list json :=
  match json_string with
  | Some s =>
      if decode_depth_ok s
      then parse_ansible_lint_output py_upper float_repr uni_printable json_string playbook_path
      else []
  | None => parse_ansible_lint_output py_upper float_repr uni_printable json_string playbook_path
  end.

(** [__main__] (lines 229-323) after argument parsing. The prints of
    [run_ansible_lint] are inside its [try]: a failing one is part of the
    [LintSpawnFailed] outcome. [sys.exit(1)] raises SystemExit, which
    [except Exception] does not catch; an exception out of
    [apply_custom_rules] is caught there and exits with status 1. *)
Definition main_full (playbook_file custom_rules_file output_report_path : pystr)
    (e : file_env) : run_result :=
  if negb (fe_playbook_exists e) then early_exit
  else
    let '(lint_stdout, _, _) := run_ansible_lint (fe_lint e) in
    let ansible_lint_issues := parse_lint_full lint_stdout playbook_file in
    match load_custom_rules_full custom_rules_file (fe_rules_file e) with
    | None => early_exit
    | Some custom_rules =>
        match read_playbook_full playbook_file (fe_playbook_text e) with
        | None => early_exit
        | Some playbook_content =>
            match apply_custom_rules_full playbook_content custom_rules playbook_file with
            | None => early_exit
            | Some custom_issues =>
                let all_issues := ansible_lint_issues ++ custom_issues in
                let out := generate_report float_repr (fe_io e) playbook_file all_issues
                             output_report_path (fe_now e) in
                mkResult 0 (Some all_issues) (Some out)
            end
        end
    end.

End FullRun.

(** A loaded rule read as a [rule] record: a dict with the four keys and a
    str pattern. *)
Definition rule_of_json (r : json) : option rule :=
  match r with
  | JObj d =>
      match dict_get d (lit "id"), dict_get d (lit "pattern"),
            dict_get d (lit "description"), dict_get d (lit "severity") with
      | Some i, Some (JStr p), Some de, Some sev => Some (mkRule i p de sev)
      | _, _, _, _ => None
      end
  | _ => None
  end.

(** The run environment of [main] that a [file_env] gives once the rules
    are loaded. *)
Definition env_of_files (e : file_env) (rules : list rule) : run_env :=
  mkEnv (fe_playbook_exists e) (fe_lint e) (Some rules) (fe_playbook_text e)
    (fe_io e) (fe_now e).

(** The text of a file whose lines are [lines], each ended by "\r\n" when
    its flag in [crlf] is set and by "\n" otherwise. *)
Fixpoint join_lines (lines : list pystr) (crlf : list bool) : pystr :=
  match lines, crlf with
  | l :: ls, b :: bs => l ++ (if b then [13; 10] else [10]) ++ join_lines ls bs
  | _, _ => []
  end.

(** Every code point is ASCII. *)
Definition all_ascii (s : pystr) : bool := forallb (fun c => (0 <=? c) && (c <? 128)) s.

(** ** Concrete runtimes for running the model

    Stand-ins for the library behaviour left abstract above, used to run the
    model on sample inputs. [demo_re_compile] is a literal, case-insensitive
    substring search; like [re.compile], it rejects a pattern with an opening
    parenthesis and no closing one. *)

Definition ascii_lower (c : Z) : Z := if (65 <=? c) && (c <=? 90) then c + 32 else c.

Fixpoint is_prefix_ci (p s : pystr) : bool :=
  match p, s with
  | [], _ => true
  | x :: p', y :: s' => (ascii_lower x =? ascii_lower y) && is_prefix_ci p' s'
  | _, [] => false
  end.

Fixpoint contains_ci (p s : pystr) : bool :=
  is_prefix_ci p s || match s with [] => false | _ :: s' => contains_ci p s' end.

Definition demo_re_compile (p : pystr) : option (pystr -> bool) :=
  if existsb (Z.eqb 40) p && negb (existsb (Z.eqb 41) p) then None
  else Some (contains_ci p).

Definition demo_upper (s : pystr) : pystr :=
  map (fun c => if (97 <=? c) && (c <=? 122) then c - 32 else c) s.

Definition demo_float_repr (t : pystr) : pystr := t.

Definition demo_printable (c : Z) : bool := true.

(** A sample run: the playbook exists, the linter prints an empty list and
    the playbook's second line sets [become]. *)
Definition demo_rule : rule :=
  mkRule (JStr (lit "R1")) (lit "become: true") (JStr (lit "Privilege escalation"))
    (JStr (lit "HIGH")).

Definition demo_playbook : pystr := lit "- hosts: all" ++ 10 :: lit "  become: true".

Definition io_ok : io_env := mkIo (fun _ => true) (fun _ => true) 900.

Definition io_write_fails : io_env := mkIo (fun _ => true) (fun _ => false) 900.

Definition demo_env (rules : list rule) (io : io_env) : run_env :=
  mkEnv true (LintFinished (lit "[]") [] 0) (Some rules) (Some demo_playbook) io
    (lit "2024-01-01T00:00:00").

Definition demo_main (e : run_env) : run_result :=
  main demo_re_compile demo_upper demo_float_repr demo_printable
    (lit "site.yml") (lit "out/report.json") e.

Definition demo_parse (s : pystr) : list json :=
  parse_ansible_lint_output demo_upper demo_float_repr demo_printable (Some s) (lit "site.yml").

(** The issue the normaliser builds from an empty dict. *)
Definition default_lint_issue : json :=
  JObj [(lit "rule_id", JStr (lit "ansible-lint:UnknownRuleID"));
        (lit "description", JStr (lit "No description provided."));
        (lit "severity", JStr (lit "MEDIUM"));
        (lit "file", JStr (lit "site.yml"));
        (lit "line", JNull)].

(** The text [{"rule": 5}, {}, 1]. *)
Definition rule_not_dict_input : pystr :=
  lit "[{" ++ 34 :: lit "rule" ++ 34 :: lit ": 5}, {}, 1]".

Definition demo_issue : json :=
  JObj [(lit "rule_id", JStr (lit "R1")); (lit "line", JInt 2)].

(** [repr] of the floats read from 2.50 and NaN: 2.5 and nan. *)
Definition sample_float_repr (t : pystr) : pystr :=
  if str_eqb t (lit "2.50") then lit "2.5"
  else if str_eqb t (lit "NaN") then lit "nan"
  else t.

(** An issue holding two floats, as a linter could report it. *)
Definition float_issue : json :=
  JObj [(lit "rule_id", JStr (lit "R1")); (lit "line", JFloat (lit "2.50"));
        (lit "score", JFloat (lit "NaN"))].

(** A str as JSON text: the characters of [s] between double quotes. *)
Definition quoted (s : String.string) : pystr := 34 :: lit s ++ [34].
Arguments quoted s%_string_scope.

(** The rule [demo_rule] as a rules file holds it. *)
Definition demo_rule_json : json :=
  JObj [(lit "id", JStr (lit "R1")); (lit "pattern", JStr (lit "become: true"));
        (lit "description", JStr (lit "Privilege escalation"));
        (lit "severity", JStr (lit "HIGH"))].

(** The text of a rules file holding [demo_rule_json]. *)
Definition demo_rules_file : pystr :=
  lit "[{" ++ quoted "id" ++ lit ": " ++ quoted "R1" ++ lit ", "
  ++ quoted "pattern" ++ lit ": " ++ quoted "become: true" ++ lit ", "
  ++ quoted "description" ++ lit ": " ++ quoted "Privilege escalation" ++ lit ", "
  ++ quoted "severity" ++ lit ": " ++ quoted "HIGH" ++ lit "}]".

(** A rules file whose only rule is a str naming the four keys: the key
    test of [load_custom_rules] accepts it, [rule["pattern"]] raises. *)
Definition string_rule_file : pystr :=
  lit "[" ++ quoted "id pattern description severity" ++ lit "]".

(** A sample run whose rules file has the text [rules_text]. *)
Definition demo_files (rules_text : pystr) : file_env :=
  mkFileEnv true (LintFinished (lit "[]") [] 0) (Some rules_text) (Some demo_playbook) io_ok
    (lit "2024-01-01T00:00:00").

Definition demo_main_files (e : file_env) : run_result :=
  main_files demo_re_compile demo_upper demo_float_repr demo_printable
    (lit "site.yml") (lit "out/report.json") e.

(** The lines of [demo_playbook]. *)
Definition demo_lines : list pystr := [lit "- hosts: all"; lit "  become: true"].

(** [repr] of every float is the text 1.0. *)
Definition const_float_repr (t : pystr) : pystr := lit "1.0".

(** The regex engine of the sample runs: [demo_re_compile], and the
    OverflowError of a repeat count of [2 ** 32]. *)
Definition demo_re_full (p : pystr) : re_outcome :=
  if str_eqb p (lit ".{4294967296}") then ReRaises
  else match demo_re_compile p with
       | Some search => ReCompiled search
       | None => ReError
       end.

Definition demo_rt : py_runtime := mkRuntime demo_re_full (fun _ => true) 900.

(** A rule as [json.load] gives it, with the pattern [p]. *)
Definition pattern_rule (p : String.string) : json :=
  JObj [(lit "id", JStr (lit "R0")); (lit "pattern", JStr (lit p));
        (lit "description", JStr (lit "d")); (lit "severity", JStr (lit "LOW"))].
Arguments pattern_rule p%_string_scope.

Definition demo_main_full (e : file_env) : run_result :=
  main_full demo_upper demo_float_repr demo_printable demo_rt
    (lit "site.yml") (lit "rules.json") (lit "out/report.json") e.

(** ** Specification vocabulary *)

(** The remainder of a scan result with [w] appended. *)
Definition shift_rest {A} (w : pystr) (o : option (A * pystr)) : option (A * pystr) :=
  match o with
  | Some (x, r) => Some (x, r ++ w)
  | None => None
  end.

(** A rule the key test of [load_custom_rules] accepts: a dict holding the
    four keys, a list holding the four key strings, or a str containing
    each key as a substring. *)
Definition rule_shape_ok (r : json) : Prop :=
  (exists d, r = JObj d /\ Forall (fun k => exists v, dict_get d k = Some v) required_keys) \/
  (exists l, r = JArr l /\ Forall (fun k => In (JStr k) l) required_keys) \/
  (exists s, r = JStr s /\ Forall (fun k => is_substring k s = true) required_keys).


(** Strict lexicographic order on (line number, rule index). *)
Definition lex_lt (a b : Z * nat) : Prop :=
  fst a < fst b \/ (fst a = fst b /\ (snd a < snd b)%nat).

(** The str values the program can hold: code points up to 0x10FFFF, and
    never a high surrogate directly followed by a low surrogate. Strings come
    from [json.loads], UTF-8 file reads and argv decoding, none of which
    produces such a pair ([json.loads] joins an escaped pair into one code
    point). *)
Fixpoint wf_str (s : pystr) : bool :=
  match s with
  | [] => true
  | c :: r =>
      (0 <=? c) && (c <=? 1114111)
      && negb (is_high_surrogate c
               && match r with c' :: _ => is_low_surrogate c' | [] => false end)
      && wf_str r
  end.

Fixpoint keys_distinct (d : list (pystr * json)) : bool :=
  match d with
  | [] => true
  | (k, _) :: r => negb (existsb (str_eqb k) (map fst r)) && keys_distinct r
  end.

(** Values with well-formed strings and distinct dict keys (a Python dict
    cannot hold a key twice). *)
Fixpoint wf_json (v : json) : bool :=
  match v with
  | JNull | JBool _ | JInt _ | JFloat _ => true
  | JStr s => wf_str s
  | JArr l => forallb wf_json l
  | JObj d =>
      keys_distinct d && forallb (fun kv => wf_str (fst kv) && wf_json (snd kv)) d
  end.

Fixpoint float_free (v : json) : bool :=
  match v with
  | JFloat _ => false
  | JArr l => forallb float_free l
  | JObj d => forallb (fun kv => float_free (snd kv)) d
  | _ => true
  end.

(** The value [json.dump] writes for [v]: each float becomes the text
    [floatstr] prints for it. *)
Fixpoint canon (float_repr : pystr -> pystr) (v : json) : json :=
  match v with
  | JFloat t => JFloat (floatstr float_repr t)
  | JArr l => JArr (map (canon float_repr) l)
  | JObj d => JObj (map (fun kv => (fst kv, canon float_repr (snd kv))) d)
  | _ => v
  end.

(** Equality of the Python values two [json] values stand for: floats are
    equal when they have the same [repr] (so NaN is the same value as
    NaN), everything else is compared as it is. *)
#[warnings="-register-all"]
Inductive same_value (float_repr : pystr -> pystr) : json -> json -> Prop :=
| sv_null : same_value float_repr JNull JNull
| sv_bool b : same_value float_repr (JBool b) (JBool b)
| sv_int z : same_value float_repr (JInt z) (JInt z)
| sv_float s t : float_repr s = float_repr t -> same_value float_repr (JFloat s) (JFloat t)
| sv_str s : same_value float_repr (JStr s) (JStr s)
| sv_arr l m : Forall2 (same_value float_repr) l m ->
    same_value float_repr (JArr l) (JArr m)
| sv_obj d e : map fst d = map fst e ->
    Forall2 (same_value float_repr) (map snd d) (map snd e) ->
    same_value float_repr (JObj d) (JObj e).

(** The pieces of a JSON float literal: an optional minus, an integer part
    (0, or a nonzero digit and digits), an optional fraction (a dot and
    digits), an optional exponent ([eE], an optional sign, digits). *)
Definition digits1 (p : pystr) : bool :=
  match p with [] => false | _ => forallb is_digit p end.

Definition sign_ok (p : pystr) : bool :=
  match p with [] => true | [c] => c =? 45 | _ => false end.

Definition int_ok (p : pystr) : bool :=
  match p with
  | [c] => is_digit c
  | c :: ds => (49 <=? c) && (c <=? 57) && forallb is_digit ds
  | [] => false
  end.

Definition frac_ok (p : pystr) : bool :=
  match p with [] => true | c :: ds => (c =? 46) && digits1 ds end.

Definition exp_ok (p : pystr) : bool :=
  match p with
  | [] => true
  | e :: r =>
      ((e =? 101) || (e =? 69)) &&
      match r with
      | c :: ds => if (c =? 43) || (c =? 45) then digits1 ds else digits1 r
      | [] => false
      end
  end.

(** The ways to cut [s] in two. *)
Definition splits (s : pystr) : list (pystr * pystr) :=
  map (fun n => (firstn n s, skipn n s)) (seq 0 (S (length s))).

(** [s] is a JSON float literal: the pieces above, with a fraction or an
    exponent. *)
Definition float_lit (s : pystr) : bool :=
  existsb (fun '(sg, r1) => sign_ok sg &&
    existsb (fun '(ip, r2) => int_ok ip &&
      existsb (fun '(fr, ex) => frac_ok fr && exp_ok ex
                             && match fr, ex with [], [] => false | _, _ => true end)
        (splits r2))
      (splits r1))
    (splits s).

(** What Python's [float.__repr__] does for the float read from [t]: NaN
    and the infinities print as nan, inf and -inf, the same as the floats
    read from NaN, Infinity and -Infinity; any other float prints as a JSON
    float literal that reads back as the same float. Every float of CPython
    passes this test. *)
Definition float_ok (float_repr : pystr -> pystr) (t : pystr) : bool :=
  let r := float_repr t in
  if str_eqb r (lit "nan") then str_eqb (float_repr (lit "NaN")) (lit "nan")
  else if str_eqb r (lit "inf") then str_eqb (float_repr (lit "Infinity")) (lit "inf")
  else if str_eqb r (lit "-inf") then str_eqb (float_repr (lit "-Infinity")) (lit "-inf")
  else float_lit r && str_eqb (float_repr r) r.

Fixpoint floats_ok (float_repr : pystr -> pystr) (v : json) : bool :=
  match v with
  | JFloat t => float_ok float_repr t
  | JArr l => forallb (floats_ok float_repr) l
  | JObj d => forallb (fun kv => floats_ok float_repr (snd kv)) d
  | _ => true
  end.

(** What may follow an encoded value in the report text: the end of the
    text, the comma before the next item, or the newline before the closing
    bracket. *)
Definition value_end (rest : pystr) : Prop :=
  match rest with
  | [] => True
  | c :: _ => c = 44 \/ c = 10
  end.

(** A value whose encoding at nesting level [lvl] [scan_once] decodes back
    to the value as written, whatever may follow the encoding, with as much fuel as the
    encoding has characters. *)
Definition elem_ok (float_repr : pystr -> pystr) (lvl : nat) (x : json) : Prop :=
  forall rest fuel, value_end rest ->
  le (length (encode float_repr lvl x)) fuel ->
  scan_once fuel (encode float_repr lvl x ++ rest) = Some (canon float_repr x, rest).

(** * Proofs *)

Lemma str_eqb_eq : forall a b, str_eqb a b = true <-> a = b.
Proof.
  induction a as [|x a IH]; destruct b as [|y b]; simpl; split; intro H;
    try discriminate; try reflexivity.
  - apply andb_prop in H as [H1 H2]. apply Z.eqb_eq in H1.
    apply IH in H2. subst. reflexivity.
  - injection H as -> ->. rewrite Z.eqb_refl. simpl. apply IH. reflexivity.
Qed.

Lemma str_eqb_refl : forall a, str_eqb a a = true.
Proof. intro a. apply str_eqb_eq. reflexivity. Qed.

Lemma StronglySorted_app {A} (R : A -> A -> Prop) : forall l1 l2,
  StronglySorted R l1 -> StronglySorted R l2 ->
  (forall x y, In x l1 -> In y l2 -> R x y) -> StronglySorted R (l1 ++ l2).
Proof.
  induction l1 as [|a l1 IH]; intros l2 H1 H2 H; simpl; [assumption|].
  inversion H1; subst. constructor.
  - apply IH; auto. intros; apply H; simpl; auto.
  - apply Forall_app; split; [assumption|].
    apply Forall_forall; intros; apply H; simpl; auto.
Qed.

Lemma Forall2_strengthen {A B} (P P' : A -> B -> Prop) (Q : B -> Prop) :
  forall l m, Forall2 P l m -> Forall Q m ->
  (forall a b, P a b -> Q b -> P' a b) -> Forall2 P' l m.
Proof.
  intros l m H; induction H; intros HQ HI; constructor;
    inversion HQ; subst; auto.
Qed.

Section ScannerProofs.

Variable re_compile : pystr -> option (pystr -> bool).

Lemma check_rules_positions : forall rules line n path,
  exists ks : list nat,
    StronglySorted lt ks /\
    Forall2 (fun f k => exists r, nth_error rules k = Some r /\
                                  f = custom_finding r line n path)
      (check_rules re_compile rules line n path) ks.
Proof.
  induction rules as [|r rest IH]; intros line n path; simpl.
  - exists []. split; constructor.
  - destruct (IH line n path) as [ks [Hs Hf]].
    assert (Hshift : Forall2 (fun f k => exists r', nth_error (r :: rest) k = Some r'
                                         /\ f = custom_finding r' line n path)
                       (check_rules re_compile rest line n path) (map S ks)).
    { clear Hs. induction Hf as [|f k fs ks' Hfk _ IHf]; simpl; constructor; auto. }
    assert (Hss : StronglySorted lt (map S ks)).
    { clear Hf Hshift. induction Hs as [|k ks' _ IHs Hall]; simpl; constructor; auto.
      apply Forall_map. eapply Forall_impl; [|exact Hall]. intros; simpl; lia. }
    destruct (re_compile (rule_pattern r)) as [search|].
    + destruct (search line).
      * exists (0%nat :: map S ks). split.
        -- constructor; [assumption|]. apply Forall_map, Forall_forall. intros; lia.
        -- constructor; [exists r; split; reflexivity | exact Hshift].
      * exists (map S ks). split; assumption.
    + exists (map S ks). split; assumption.
Qed.

Lemma scan_lines_positions : forall lines i rules path,
  exists pos : list (Z * nat),
    StronglySorted lex_lt pos /\ Forall (fun p => i < fst p) pos /\
    Forall2 (fun f p => exists r line,
        nth_error rules (snd p) = Some r /\
        nth_error lines (Z.to_nat (fst p - i - 1)) = Some line /\
        f = custom_finding r line (fst p) path)
      (scan_lines re_compile lines i rules path) pos.
Proof.
  induction lines as [|line rest IH]; intros i rules path; simpl.
  - exists []. repeat split; constructor.
  - destruct (check_rules_positions rules line (i + 1) path) as [ks [Hks Hf]].
    destruct (IH (i + 1) rules path) as [pos [Hs [Hgt Hp]]].
    exists (map (fun k => (i + 1, k)) ks ++ pos). split; [|split].
    + apply StronglySorted_app; [| assumption |].
      * clear Hf. induction Hks as [|k ks' _ IHk Hall]; simpl; constructor; auto.
        apply Forall_map. eapply Forall_impl; [|exact Hall].
        intros; unfold lex_lt; simpl; right; split; [reflexivity | assumption].
      * intros x y Hx Hy. apply in_map_iff in Hx as [k [<- _]].
        rewrite Forall_forall in Hgt. specialize (Hgt y Hy).
        unfold lex_lt; simpl; left; assumption.
    + apply Forall_app; split.
      * apply Forall_map, Forall_forall; intros; simpl; lia.
      * eapply Forall_impl; [|exact Hgt]; intros ? Hx; simpl in *; lia.
    + apply Forall2_app.
      * clear Hks. induction Hf as [|f k fs ks' [r [Hr ->]] _ IHf]; simpl; constructor; auto.
        exists r, line. simpl. replace (i + 1 - i - 1) with 0 by lia.
        split; [assumption | split; reflexivity].
      * eapply Forall2_strengthen; [exact Hp | exact Hgt |].
        intros f [n k] [r [l [Hr [Hl ->]]]] Hn; simpl in *.
        exists r, l. split; [assumption|]. split; [|reflexivity].
        replace (Z.to_nat (n - i - 1)) with (S (Z.to_nat (n - (i + 1) - 1))) by lia.
        simpl. assumption.
Qed.

(** C1: the findings of [apply_custom_rules] are ordered by line number
    and, on one line, by the position of the rule in [rules]: the j-th
    finding is the one of rule [snd p] on line [fst p], for the j-th pair [p]
    of a strictly increasing (lexicographic) list of positions. *)
Theorem apply_custom_rules_ordered : forall content rules playbook_path,
  exists pos : list (Z * nat),
    StronglySorted lex_lt pos /\
    Forall2 (fun f p => exists r line,
        nth_error rules (snd p) = Some r /\
        nth_error (splitlines content) (Z.to_nat (fst p - 1)) = Some line /\
        1 <= fst p /\
        f = custom_finding r line (fst p) playbook_path)
      (apply_custom_rules re_compile content rules playbook_path) pos.
Proof.
  intros content rules path. unfold apply_custom_rules.
  destruct (scan_lines_positions (splitlines content) 0 rules path) as [pos [Hs [Hgt Hp]]].
  exists pos. split; [assumption|].
  eapply Forall2_strengthen; [exact Hp | exact Hgt |].
  intros f [n k] [r [l [Hr [Hl ->]]]] Hn; simpl in *.
  exists r, l. replace (n - 1) with (n - 0 - 1) by lia. repeat split; auto; lia.
Qed.



End ScannerProofs.

Section PipelineProofs.

Variable re_compile : pystr -> option (pystr -> bool).
Variable py_upper : pystr -> pystr.
Variable float_repr : pystr -> pystr.
Variable uni_printable : Z -> bool.

(** C6: the status field of the report is "FAIL" exactly when the issue
    list is non-empty and "PASS" exactly when it is empty; two issue lists
    that are both empty or both non-empty give the same status, whatever the
    other fields. *)
Theorem report_status_by_emptiness : forall playbook_path all_issues report_timestamp,
  exists d,
    build_report playbook_path all_issues report_timestamp = JObj d /\
    (dict_get d (lit "status") = Some (JStr (lit "FAIL")) <-> all_issues <> []) /\
    (dict_get d (lit "status") = Some (JStr (lit "PASS")) <-> all_issues = []) /\
    (forall playbook_path' all_issues' report_timestamp' d',
       build_report playbook_path' all_issues' report_timestamp' = JObj d' ->
       (all_issues = [] <-> all_issues' = []) ->
       dict_get d' (lit "status") = dict_get d (lit "status")).
Proof.
  intros pp issues ts. eexists. split; [reflexivity|].
  simpl. split; [|split].
  - destruct issues; simpl; split; intro H; try congruence.
  - destruct issues; simpl; split; intro H; congruence.
  - intros pp' issues' ts' d' Hd' Hiff. injection Hd' as <-. simpl.
    destruct issues, issues'; try reflexivity;
      exfalso; [assert (H : @nil json = []) by reflexivity; apply Hiff in H; discriminate
               | assert (H : @nil json = []) by reflexivity; apply Hiff in H; discriminate].
Qed.

Lemma main_reaches_report : forall playbook_file output_report_path e rules content,
  env_playbook_exists e = true -> env_rules e = Some rules ->
  env_playbook_text e = Some content ->
  main re_compile py_upper float_repr uni_printable playbook_file output_report_path e
  = let all_issues :=
        parse_ansible_lint_output py_upper float_repr uni_printable
          (fst (fst (run_ansible_lint (env_lint e)))) playbook_file
        ++ apply_custom_rules re_compile content rules playbook_file in
    mkResult 0 (Some all_issues)
      (Some (generate_report float_repr (env_io e) playbook_file all_issues
               output_report_path (env_now e))).
Proof.
  intros pf out e rules content He Hr Ht. unfold main.
  rewrite He, Hr, Ht. simpl. destruct (run_ansible_lint (env_lint e)) as [[o er] rc].
  reflexivity.
Qed.

(** C8: the issue list handed to [generate_report] is the linter's issues
    followed by the custom-rule findings, each list in its own order; the
    first part depends on the linter output only, the second on the rules
    and the playbook text only. *)
Theorem main_merges_lint_then_custom : forall playbook_file output_report_path e rules content,
  env_playbook_exists e = true -> env_rules e = Some rules ->
  env_playbook_text e = Some content ->
  let lint_issues := parse_ansible_lint_output py_upper float_repr uni_printable
                       (fst (fst (run_ansible_lint (env_lint e)))) playbook_file in
  let custom_issues := apply_custom_rules re_compile content rules playbook_file in
  let r := main re_compile py_upper float_repr uni_printable playbook_file output_report_path e in
  merged_issues r = Some (lint_issues ++ custom_issues) /\
  report_file r = Some (generate_report float_repr (env_io e) playbook_file
                          (lint_issues ++ custom_issues) output_report_path (env_now e)).
Proof.
  intros pf out e rules content He Hr Ht. simpl.
  rewrite (main_reaches_report pf out e rules content He Hr Ht). split; reflexivity.
Qed.


(** C3 (as the code has it): when the report cannot be written (the output
    path has no directory part, its directory cannot be created, or the file
    cannot be written), [generate_report] catches the error and returns
    normally, and the run ends with exit status 0 like a successful one. *)
Theorem main_write_failure_exit_zero : forall playbook_file output_report_path e rules content,
  env_playbook_exists e = true -> env_rules e = Some rules ->
  env_playbook_text e = Some content ->
  (dirname output_report_path = []
   \/ makedirs_ok (env_io e) (dirname output_report_path) = false
   \/ write_ok (env_io e) output_report_path = false) ->
  let r := main re_compile py_upper float_repr uni_printable playbook_file output_report_path e in
  exit_code r = 0 /\ report_file r = Some ReportFailed.
Proof.
  intros pf out e rules content He Hr Ht Hfail. simpl.
  rewrite (main_reaches_report pf out e rules content He Hr Ht). simpl.
  split; [reflexivity|]. f_equal. unfold generate_report.
  destruct (dirname out) as [|c d] eqn:Hd.
  - reflexivity.
  - destruct Hfail as [H | [H | H]]; [discriminate | |].
    + rewrite H. reflexivity.
    + rewrite H, andb_false_r. reflexivity.
Qed.

End PipelineProofs.

Section FullRunProofs.

Variable py_upper : pystr -> pystr.
Variable float_repr : pystr -> pystr.
Variable uni_printable : Z -> bool.
Variable rt : py_runtime.

Lemma check_rules_full_raises : forall rules line n path bad p,
  In bad rules -> py_index bad (lit "pattern") = Some (JStr p) -> rt_re rt p = ReRaises ->
  check_rules_full float_repr uni_printable rt rules line n path = None.
Proof.
  induction rules as [|r rules IH]; intros line n path bad p Hin Hp Hre; [destruct Hin|].
  destruct Hin as [<- | Hin]; cbn [check_rules_full].
  - rewrite Hp, Hre. reflexivity.
  - rewrite (IH line n path bad p Hin Hp Hre).
    destruct (py_index r (lit "pattern")) as [v|]; [|reflexivity].
    destruct v as [| | | | q | |]; try reflexivity.
    destruct (rt_re rt q) as [| | search]; try reflexivity.
    + destruct (py_index r (lit "id")); [destruct (ints_printable _)|]; reflexivity.
    + destruct (search line); [|reflexivity].
      destruct (py_index r (lit "id")), (py_index r (lit "severity")),
        (py_index r (lit "description")); try reflexivity.
      destruct (_ && _); reflexivity.
Qed.

(** C5 (as the code has it): a rule whose pattern Python refuses to compile
    with an exception other than [re.error] (OverflowError for a repeat
    count of [2 ** 32] or more, ValueError for a count of more than 4300
    digits, RecursionError for deeply nested groups) makes
    [apply_custom_rules] raise on any playbook with a line: the handler
    catches [re.error] only. *)
Theorem apply_custom_rules_pattern_raises : forall content rules path bad p,
  In bad rules -> py_index bad (lit "pattern") = Some (JStr p) -> rt_re rt p = ReRaises ->
  splitlines content <> [] ->
  apply_custom_rules_full float_repr uni_printable rt content rules path = None.
Proof.
  intros content rules path bad p Hin Hp Hre Hne. unfold apply_custom_rules_full.
  destruct (rt_print_ok rt _); [|reflexivity].
  destruct (splitlines content) as [|line lines]; [congruence|].
  cbn [scan_lines_full].
  rewrite (check_rules_full_raises rules line (0 + 1) path bad p Hin Hp Hre). reflexivity.
Qed.

Lemma check_rules_full_skip : forall pre bad post line n path p i,
  py_index bad (lit "pattern") = Some (JStr p) -> rt_re rt p = ReError ->
  py_index bad (lit "id") = Some i -> ints_printable i = true ->
  check_rules_full float_repr uni_printable rt (pre ++ bad :: post) line n path
  = check_rules_full float_repr uni_printable rt (pre ++ post) line n path.
Proof.
  induction pre as [|r pre IH]; intros bad post line n path p i Hp Hre Hi Hpi;
    cbn [app check_rules_full].
  - rewrite Hp, Hre, Hi, Hpi. reflexivity.
  - rewrite (IH bad post line n path p i Hp Hre Hi Hpi). reflexivity.
Qed.

Theorem scan_lines_full_skips_re_error : forall lines k pre bad post path p i,
  py_index bad (lit "pattern") = Some (JStr p) -> rt_re rt p = ReError ->
  py_index bad (lit "id") = Some i -> ints_printable i = true ->
  scan_lines_full float_repr uni_printable rt lines k (pre ++ bad :: post) path
  = scan_lines_full float_repr uni_printable rt lines k (pre ++ post) path.
Proof.
  induction lines as [|line lines IH]; intros k pre bad post path p i Hp Hre Hi Hpi;
    cbn [scan_lines_full]; [reflexivity|].
  rewrite (check_rules_full_skip pre bad post line (k + 1) path p i Hp Hre Hi Hpi).
  rewrite (IH (k + 1) pre bad post path p i Hp Hre Hi Hpi). reflexivity.
Qed.

(** C2 (as the code has it): the exit status is 0 or 1. It is 0 exactly
    when the playbook exists, the custom rules load, the playbook is read
    and [apply_custom_rules] returns, whatever the linter did and however
    many issues were found; every other run exits with status 1. *)
Theorem main_full_exit_code :
  forall playbook_file custom_rules_file output_report_path e,
  let r := main_full py_upper float_repr uni_printable rt
             playbook_file custom_rules_file output_report_path e in
  (exit_code r = 0 \/ exit_code r = 1) /\
  (exit_code r = 0 <->
   fe_playbook_exists e = true /\
   exists rules content issues,
     load_custom_rules_full rt custom_rules_file (fe_rules_file e) = Some rules /\
     read_playbook_full rt playbook_file (fe_playbook_text e) = Some content /\
     apply_custom_rules_full float_repr uni_printable rt content rules playbook_file
       = Some issues).
Proof.
  intros pf rf out e r. unfold r, main_full.
  destruct (fe_playbook_exists e) eqn:He; cbn [negb].
  2: { split; [right; reflexivity|]. split; [intro H; discriminate H|].
       intros [H _]; discriminate H. }
  destruct (run_ansible_lint (fe_lint e)) as [[o er] rc]. cbv beta iota.
  destruct (load_custom_rules_full rt rf (fe_rules_file e)) as [rules|] eqn:El.
  2: { split; [right; reflexivity|]. split; [intro H; discriminate H|].
       intros [_ (rules & c & i & H & _)]. discriminate H. }
  destruct (read_playbook_full rt pf (fe_playbook_text e)) as [c|] eqn:Er.
  2: { split; [right; reflexivity|]. split; [intro H; discriminate H|].
       intros [_ (rules' & c & i & _ & H & _)]. discriminate H. }
  destruct (apply_custom_rules_full float_repr uni_printable rt c rules pf) as [is|] eqn:Ea.
  2: { split; [right; reflexivity|]. split; [intro H; discriminate H|].
       intros [_ (rules' & c' & i & H1 & H2 & H3)].
       injection H1 as <-. injection H2 as <-. congruence. }
  split; [left; reflexivity|]. split; [|reflexivity].
  intros _. split; [reflexivity|]. exists rules, c, is. auto.
Qed.

End FullRunProofs.

Section LintProofs.

Variable py_upper : pystr -> pystr.
Variable float_repr : pystr -> pystr.
Variable uni_printable : Z -> bool.

Local Arguments lit : simpl never.

Lemma json_loads_empty : json_loads [] = None.
Proof. reflexivity. Qed.

Lemma collect_issues_in : forall items path issue,
  In issue (collect_issues py_upper float_repr uni_printable items path) ->
  exists item, In item items /\
               lint_issue py_upper float_repr uni_printable item path = Some issue.
Proof.
  induction items as [|item rest IH]; intros path issue H; simpl in H; [contradiction|].
  destruct (lint_issue py_upper float_repr uni_printable item path) as [i|] eqn:E;
    [|contradiction].
  destruct H as [<- | H].
  - exists item. split; [left; reflexivity | assumption].
  - destruct (IH path issue H) as [it [Hin Hit]]. exists it. split; [right|]; assumption.
Qed.

Lemma collect_issues_app : forall pre rest path issues,
  map (fun it => lint_issue py_upper float_repr uni_printable it path) pre = map Some issues ->
  collect_issues py_upper float_repr uni_printable (pre ++ rest) path
  = issues ++ collect_issues py_upper float_repr uni_printable rest path.
Proof.
  induction pre as [|it pre IH]; intros rest path issues H; simpl in *.
  - destruct issues; [reflexivity | discriminate].
  - destruct issues as [|i issues]; [discriminate|]. simpl in H.
    injection H as H1 H2. rewrite H1. simpl. f_equal. apply IH. assumption.
Qed.

(** C7: every issue produced from the linter output comes from a dict
    [d] of the parsed list whose "rule" entry is a dict [ri], and its fields
    are: "rule_id" the id (default "UnknownRuleID") prefixed with
    "ansible-lint:"; "description" the "message" (default
    "No description provided."); "severity" the upper-cased severity string
    (default "medium"); "file" the "filename" (default the scanned playbook
    path); "line" the "linenumber" when present and [None] otherwise. *)
Theorem lint_issue_field_mapping : forall s playbook_path issue,
  In issue (parse_ansible_lint_output py_upper float_repr uni_printable (Some s) playbook_path) ->
  exists items d ri sev,
    json_loads s = Some (JArr items) /\ In (JObj d) items /\
    dict_get_or d (lit "rule") (JObj []) = JObj ri /\
    dict_get_or ri (lit "severity") (JStr (lit "medium")) = JStr sev /\
    issue = JObj
      [(lit "rule_id",
        JStr (lit "ansible-lint:"
              ++ py_str float_repr uni_printable
                   (dict_get_or ri (lit "id") (JStr (lit "UnknownRuleID")))));
       (lit "description", dict_get_or d (lit "message") (JStr (lit "No description provided.")));
       (lit "severity", JStr (py_upper sev));
       (lit "file", dict_get_or d (lit "filename") (JStr playbook_path));
       (lit "line", dict_get_or d (lit "linenumber") JNull)].
Proof.
  intros s path issue H. unfold parse_ansible_lint_output in H.
  destruct s as [|c s']; [contradiction|].
  destruct (json_loads (c :: s')) as [v|] eqn:E; [|contradiction].
  destruct v as [| | | | |items|]; try contradiction.
  destruct (collect_issues_in items path issue H) as [item [Hin Hit]].
  unfold lint_issue, py_get in Hit.
  destruct item as [| | | | | |d]; try discriminate.
  destruct (dict_get_or d (lit "rule") (JObj [])) as [| | | | | |ri] eqn:Eri; try discriminate.
  destruct (dict_get_or ri (lit "severity") (JStr (lit "medium"))) as [| | | |sev| |] eqn:Esev;
    try discriminate.
  simpl in Hit. injection Hit as <-.
  exists items, d, ri, sev. repeat split; assumption.
Qed.

(** C10 (as the code has it): on a string that parses as a list, the
    normaliser returns the issues of the elements before the first element
    whose processing raises (one that is not a dict, or whose "rule" value is
    not a dict, or whose severity is not a str), and all issues when none
    raises. *)
Theorem parse_lint_prefix_until_exception : forall playbook_path,
  (forall item,
     lint_issue py_upper float_repr uni_printable item playbook_path = None <->
     match item with
     | JObj d =>
         match dict_get_or d (lit "rule") (JObj []) with
         | JObj ri =>
             match dict_get_or ri (lit "severity") (JStr (lit "medium")) with
             | JStr _ => False
             | _ => True
             end
         | _ => True
         end
     | _ => True
     end) /\
  (forall s pre bad post issues,
     json_loads s = Some (JArr (pre ++ bad :: post)) ->
     map (fun it => lint_issue py_upper float_repr uni_printable it playbook_path) pre
       = map Some issues ->
     lint_issue py_upper float_repr uni_printable bad playbook_path = None ->
     parse_ansible_lint_output py_upper float_repr uni_printable (Some s) playbook_path
       = issues) /\
  (forall s items issues,
     json_loads s = Some (JArr items) ->
     map (fun it => lint_issue py_upper float_repr uni_printable it playbook_path) items
       = map Some issues ->
     parse_ansible_lint_output py_upper float_repr uni_printable (Some s) playbook_path
       = issues).
Proof.
  intro path. split; [|split].
  - intro item. unfold lint_issue, py_get.
    destruct item as [| | | | | |d]; try (split; intros; [exact I | reflexivity]).
    destruct (dict_get_or d (lit "rule") (JObj [])) as [| | | | | |ri];
      try (split; intros; [exact I | reflexivity]).
    destruct (dict_get_or ri (lit "severity") (JStr (lit "medium")));
      try (split; intros; [exact I | reflexivity]).
    simpl. split; intro H; [discriminate | contradiction].
  - intros s pre bad post issues Hs Hpre Hbad. unfold parse_ansible_lint_output.
    destruct s as [|c s']; [rewrite json_loads_empty in Hs; discriminate|].
    rewrite Hs. rewrite (collect_issues_app pre (bad :: post) path issues Hpre).
    simpl. rewrite Hbad. apply app_nil_r.
  - intros s items issues Hs Hall. unfold parse_ansible_lint_output.
    destruct s as [|c s']; [rewrite json_loads_empty in Hs; discriminate|].
    rewrite Hs. rewrite <- (app_nil_r items).
    rewrite (collect_issues_app items [] path issues Hall). apply app_nil_r.
Qed.

(** C4 (defect): on the input "[{}, 1]", a list that is not a list of issue
    objects, the normaliser returns one issue, not the empty list its
    docstring promises on error. *)
Theorem parse_lint_bad_list_not_empty : forall playbook_path,
  parse_ansible_lint_output py_upper float_repr uni_printable (Some (lit "[{}, 1]")) playbook_path
  = [JObj [(lit "rule_id", JStr (lit "ansible-lint:UnknownRuleID"));
           (lit "description", JStr (lit "No description provided."));
           (lit "severity", JStr (py_upper (lit "medium")));
           (lit "file", JStr playbook_path);
           (lit "line", JNull)]].
Proof. intro path. reflexivity. Qed.

End LintProofs.

Section RoundTripProofs.

Variable float_repr : pystr -> pystr.

(** Case on the first comparison of the goal, by its reflection lemma. *)
Ltac case_cmp :=
  lazymatch goal with
  | |- context [?x =? ?y] => case (Z.eqb_spec x y)
  | |- context [?x <? ?y] => case (Z.ltb_spec x y)
  | |- context [?x <=? ?y] => case (Z.leb_spec x y)
  end; intro.

Ltac zbool := repeat case_cmp; cbv beta iota delta [andb orb negb]; try lia.

Lemma hex_val_digit : forall n, 0 <= n < 16 -> hex_val (hex_digit n) = Some n.
Proof.
  intros n Hn. unfold hex_digit, hex_val. destruct (Z.ltb_spec n 10); zbool; f_equal; lia.
Qed.

Lemma u_escape_shape : forall n, 0 <= n < 65536 ->
  exists k1 k2 k3 k4, u_escape n = [92; 117; k1; k2; k3; k4] /\ hex4 k1 k2 k3 k4 = Some n.
Proof.
  intros n Hn. unfold u_escape. cbn [hex_fixed app].
  eexists _, _, _, _. split; [reflexivity|].
  unfold hex4.
  rewrite !hex_val_digit by (apply Z.mod_pos_bound; lia).
  f_equal. Z.div_mod_to_equations. lia.
Qed.

Ltac zcases := repeat (case_cmp; try (exfalso; lia)); cbv beta iota delta [andb orb negb].

Lemma surrogate_split : forall c, 65536 <= c <= 1114111 ->
  55296 <= 55296 - 64 + Z.shiftr c 10 <= 56319 /\
  56320 <= 56320 + Z.land c 1023 <= 57343 /\
  join_surrogates (55296 - 64 + Z.shiftr c 10) (56320 + Z.land c 1023) = c.
Proof.
  intros c Hc.
  rewrite Z.shiftr_div_pow2 by lia.
  change 1023 with (Z.ones 10). rewrite Z.land_ones by lia.
  unfold join_surrogates. change (2 ^ 10) with 1024.
  Z.div_mod_to_equations. lia.
Qed.

Lemma ascii_escape_cases : forall c, 0 <= c <= 1114111 ->
  (ascii_escape c = [c] /\ 32 <= c /\ c <> 92 /\ c <> 34) \/
  (exists e, ascii_escape c = [92; e] /\ simple_escape e = Some c /\ e <> 117) \/
  (exists hi lo, ascii_escape c = u_escape hi ++ u_escape lo /\
     55296 <= hi <= 56319 /\ 56320 <= lo <= 57343 /\ join_surrogates hi lo = c) \/
  (c < 65536 /\ ascii_escape c = u_escape c).
Proof.
  intros c Hc.
  destruct (Z.eqb_spec c 92) as [->|N1];
    [right; left; exists 92; split; [reflexivity | split; [reflexivity | lia]]|].
  destruct (Z.eqb_spec c 34) as [->|N2];
    [right; left; exists 34; split; [reflexivity | split; [reflexivity | lia]]|].
  destruct (Z.eqb_spec c 8) as [->|N3];
    [right; left; exists 98; split; [reflexivity | split; [reflexivity | lia]]|].
  destruct (Z.eqb_spec c 12) as [->|N4];
    [right; left; exists 102; split; [reflexivity | split; [reflexivity | lia]]|].
  destruct (Z.eqb_spec c 10) as [->|N5];
    [right; left; exists 110; split; [reflexivity | split; [reflexivity | lia]]|].
  destruct (Z.eqb_spec c 13) as [->|N6];
    [right; left; exists 114; split; [reflexivity | split; [reflexivity | lia]]|].
  destruct (Z.eqb_spec c 9) as [->|N7];
    [right; left; exists 116; split; [reflexivity | split; [reflexivity | lia]]|].
  unfold ascii_escape.
  rewrite (proj2 (Z.eqb_neq c 92) N1), (proj2 (Z.eqb_neq c 34) N2).
  destruct ((32 <=? c) && (c <=? 126)) eqn:Ep.
  - left. apply andb_prop in Ep as [E1 E2]. apply Z.leb_le in E1.
    split; [reflexivity | lia].
  - rewrite (proj2 (Z.eqb_neq c 8) N3), (proj2 (Z.eqb_neq c 12) N4),
      (proj2 (Z.eqb_neq c 10) N5), (proj2 (Z.eqb_neq c 13) N6), (proj2 (Z.eqb_neq c 9) N7).
    destruct (Z.leb_spec 65536 c).
    + right; right; left. exists (55296 - 64 + Z.shiftr c 10), (56320 + Z.land c 1023).
      split; [reflexivity | apply surrogate_split; lia].
    + right; right; right. split; [lia | reflexivity].
Qed.

Lemma escaped_no_low : forall r rest k1 k2 k3 k4 r3 u2,
  wf_str r = true ->
  match r with c :: _ => is_low_surrogate c = false | [] => True end ->
  flat_map ascii_escape r ++ 34 :: rest = 92 :: 117 :: k1 :: k2 :: k3 :: k4 :: r3 ->
  hex4 k1 k2 k3 k4 = Some u2 -> is_low_surrogate u2 = false.
Proof.
  intros r rest k1 k2 k3 k4 r3 u2 Hwf Hlow H Hx.
  destruct r as [|c r]; cbn [flat_map app] in H; [discriminate|].
  simpl in Hwf. apply andb_prop in Hwf as [Hwf _]. apply andb_prop in Hwf as [Hwf _].
  apply andb_prop in Hwf as [H0 H1]. apply Z.leb_le in H0, H1.
  rewrite <- app_assoc in H.
  destruct (ascii_escape_cases c (conj H0 H1)) as [[E [? [? ?]]] | [[e [E [? ?]]] | [(hi & lo & E & ? & ? & ?) | [? E]]]];
    rewrite E in H.
  - cbn [app] in H. injection H as ->. lia.
  - cbn [app] in H. injection H as ? ?. congruence.
  - destruct (u_escape_shape hi) as (a & b & c' & d & Hu & Hh); [lia|].
    rewrite Hu in H. cbn [app] in H. injection H as -> -> -> -> _.
    rewrite Hh in Hx. injection Hx as <-. unfold is_low_surrogate. zcases. reflexivity.
  - destruct (u_escape_shape c) as (a & b & c' & d & Hu & Hh); [lia|].
    rewrite Hu in H. cbn [app] in H. injection H as -> -> -> -> _.
    rewrite Hh in Hx. injection Hx as <-. exact Hlow.
Qed.

Local Arguments hex4 : simpl never.
Local Arguments is_high_surrogate : simpl never.
Local Arguments is_low_surrogate : simpl never.
Local Arguments simple_escape : simpl never.
Local Arguments join_surrogates : simpl never.

Lemma wf_str_cons : forall c s, wf_str (c :: s) = true ->
  0 <= c <= 1114111 /\
  (is_high_surrogate c = true ->
   match s with c' :: _ => is_low_surrogate c' = false | [] => True end) /\
  wf_str s = true.
Proof.
  intros c s H. cbn [wf_str] in H.
  apply andb_prop in H as [H Hs]. apply andb_prop in H as [H Hn].
  apply andb_prop in H as [H0 H1]. apply Z.leb_le in H0, H1.
  split; [lia|]. split; [|exact Hs].
  intro Hh. rewrite Hh in Hn. destruct s as [|c' s']; [exact I|].
  destruct (is_low_surrogate c'); [discriminate | reflexivity].
Qed.

Lemma scanstring_escaped : forall s rest, wf_str s = true ->
  scanstring (flat_map ascii_escape s ++ 34 :: rest) = Some (s, rest).
Proof.
  induction s as [|c s IH]; intros rest Hwf; [reflexivity|].
  apply wf_str_cons in Hwf as [Hc [Hlow Hs]].
  specialize (IH rest Hs).
  cbn [flat_map]. rewrite <- app_assoc.
  remember (flat_map ascii_escape s ++ 34 :: rest) as X eqn:HX.
  destruct (ascii_escape_cases c Hc)
    as [[E [H32 [H92 H34]]] | [[e [E [He He']]] | [(hi & lo & E & Hhi & Hlo & Hj) | [Hc' E]]]];
    rewrite E.
  - cbn [app]. simpl.
    rewrite (proj2 (Z.eqb_neq c 34) H34), (proj2 (Z.eqb_neq c 92) H92),
      (proj2 (Z.ltb_ge c 32) H32).
    rewrite IH. reflexivity.
  - cbn [app]. simpl. rewrite (proj2 (Z.eqb_neq e 117) He'), He. rewrite IH. reflexivity.
  - destruct (u_escape_shape hi) as (a & b & c1 & d & Hu1 & Hh1); [lia|].
    destruct (u_escape_shape lo) as (a' & b' & c1' & d' & Hu2 & Hh2); [lia|].
    rewrite Hu1, Hu2. cbn [app]. simpl. rewrite Hh1.
    replace (is_high_surrogate hi) with true
      by (symmetry; unfold is_high_surrogate; zcases; reflexivity).
    simpl. rewrite Hh2.
    replace (is_low_surrogate lo) with true
      by (symmetry; unfold is_low_surrogate; zcases; reflexivity).
    rewrite IH, Hj. reflexivity.
  - destruct (u_escape_shape c) as (a & b & c1 & d & Hu & Hh); [lia|].
    rewrite Hu. cbn [app]. simpl. rewrite Hh.
    destruct (is_high_surrogate c) eqn:Eh; [|rewrite IH; reflexivity].
    specialize (Hlow eq_refl).
    destruct X as [|b0 [|v [|k1 [|k2 [|k3 [|k4 r3]]]]]]; try (rewrite IH; reflexivity).
    destruct ((b0 =? 92) && (v =? 117)) eqn:Ebv; [|rewrite IH; reflexivity].
    apply andb_prop in Ebv as [Eb Ev]. apply Z.eqb_eq in Eb, Ev. subst b0 v.
    destruct (hex4 k1 k2 k3 k4) as [u2|] eqn:Ek.
    + rewrite (escaped_no_low s rest k1 k2 k3 k4 r3 u2 Hs Hlow (eq_sym HX) Ek).
      rewrite IH. reflexivity.
    + exfalso. simpl in IH. rewrite Ek in IH. discriminate.
Qed.

Lemma digits_value_snoc : forall ds m,
  digits_value (ds ++ [m]) = digits_value ds * 10 + (m - 48).
Proof. intros ds m. unfold digits_value. rewrite fold_left_app. reflexivity. Qed.

Lemma single_digit_spec : forall n acc, 0 <= n < 10 ->
  exists d ds, (48 + n) :: acc = d :: ds ++ acc /\
    is_digit d = true /\ forallb is_digit ds = true /\
    digits_value (d :: ds) = n /\
    (n = 0 -> d = 48 /\ ds = []) /\
    (0 < n -> 49 <= d <= 57 /\ 10 ^ Z.of_nat (length ds) <= n).
Proof.
  intros n acc Hn. exists (48 + n), [].
  split; [reflexivity|]. split; [unfold is_digit; zcases; reflexivity|].
  split; [reflexivity|]. split; [unfold digits_value; cbn [fold_left]; lia|].
  split; [intros ->; split; reflexivity|].
  intros; split; [lia|]. cbn [length Z.of_nat]. rewrite Z.pow_0_r. lia.
Qed.

Lemma pos_digits_spec : forall f n acc, 0 <= n < 10 ^ Z.of_nat (S f) ->
  exists d ds, pos_digits (S f) n acc = d :: ds ++ acc /\
    is_digit d = true /\ forallb is_digit ds = true /\
    digits_value (d :: ds) = n /\
    (n = 0 -> d = 48 /\ ds = []) /\
    (0 < n -> 49 <= d <= 57 /\ 10 ^ Z.of_nat (length ds) <= n).
Proof.
  induction f as [|f IH]; intros n acc Hn.
  - change (10 ^ Z.of_nat 1) with 10 in Hn.
    cbn [pos_digits]. rewrite (proj2 (Z.ltb_lt n 10)) by lia.
    apply single_digit_spec; lia.
  - change (pos_digits (S (S f)) n acc) with
      (if n <? 10 then (48 + n) :: acc
       else pos_digits (S f) (n / 10) ((48 + n mod 10) :: acc)).
    destruct (Z.ltb_spec n 10).
    + apply single_digit_spec; lia.
    + assert (Hq : 0 <= n / 10 < 10 ^ Z.of_nat (S f)).
      { rewrite Nat2Z.inj_succ in *. rewrite Z.pow_succ_r in Hn by lia.
        split; [apply Z.div_pos; lia | apply Z.div_lt_upper_bound; lia]. }
      destruct (IH (n / 10) ((48 + n mod 10) :: acc) Hq)
        as (d & ds & E & Hd & Hds & Hv & H0 & Hpos).
      exists d, (ds ++ [48 + n mod 10]). rewrite E.
      split; [rewrite <- app_assoc; reflexivity|].
      split; [exact Hd|].
      split; [rewrite forallb_app, Hds; unfold is_digit; cbn [forallb];
              pose proof (Z.mod_pos_bound n 10) as Hm; zcases; reflexivity|].
      split; [rewrite app_comm_cons, digits_value_snoc, Hv;
              pose proof (Z.div_mod n 10); lia|].
      split; [lia|].
      intros _. destruct Hpos as [Hd' Hp]; [apply Z.div_str_pos; lia|].
      split; [exact Hd'|].
      rewrite length_app, Nat2Z.inj_add, Z.pow_add_r by lia.
      cbn [length Z.of_nat Pos.of_succ_nat]. rewrite Z.pow_1_r.
      pose proof (Z.div_mod n 10). pose proof (Z.mod_pos_bound n 10). lia.
Qed.

Lemma int_repr_spec : forall z, exists sg d ds,
  int_repr z = sg ++ d :: ds /\ (sg = [] /\ 0 <= z \/ sg = [45] /\ z < 0) /\
  is_digit d = true /\ forallb is_digit ds = true /\
  digits_value (d :: ds) = Z.abs z /\
  (z = 0 -> d = 48 /\ ds = []) /\
  (z <> 0 -> 49 <= d <= 57 /\ 10 ^ Z.of_nat (length ds) <= Z.abs z).
Proof.
  intro z. unfold int_repr.
  assert (Hfuel : forall n, 0 <= n -> n < 10 ^ Z.of_nat (S (Z.to_nat (Z.log2 n)))).
  { intros n Hn. destruct (Z.eq_dec n 0) as [->|Hn0]; [reflexivity|].
    destruct (Z.log2_spec n) as [_ Hup]; [lia|].
    rewrite Nat2Z.inj_succ, Z2Nat.id by apply Z.log2_nonneg.
    eapply Z.lt_le_trans; [exact Hup|].
    apply Z.pow_le_mono_l. split; [lia|]. lia. }
  destruct (Z.ltb_spec z 0).
  - destruct (pos_digits_spec (Z.to_nat (Z.log2 (- z))) (- z) [])
      as (d & ds & E & Hd & Hds & Hv & H0 & Hp); [split; [lia | apply Hfuel; lia]|].
    exists [45], d, ds. rewrite Nat.add_1_r, E, app_nil_r.
    split; [reflexivity|]. split; [right; split; [reflexivity | lia]|].
    split; [exact Hd|]. split; [exact Hds|].
    rewrite Z.abs_neq by lia. split; [exact Hv|]. split; [lia|].
    intros _. apply Hp. lia.
  - destruct (pos_digits_spec (Z.to_nat (Z.log2 z)) z [])
      as (d & ds & E & Hd & Hds & Hv & H0 & Hp); [split; [lia | apply Hfuel; lia]|].
    exists [], d, ds. rewrite Nat.add_1_r, E, app_nil_r.
    split; [reflexivity|]. split; [left; split; [reflexivity | lia]|].
    split; [exact Hd|]. split; [exact Hds|].
    rewrite Z.abs_eq by lia. split; [exact Hv|]. split; [exact H0|].
    intros Hz. apply Hp. lia.
Qed.

Lemma span_digits_app : forall ds rest, forallb is_digit ds = true -> value_end rest ->
  span_digits (ds ++ rest) = (ds, rest).
Proof.
  induction ds as [|c ds IH]; intros rest Hds Hr.
  - destruct rest as [|c r]; [reflexivity|]. destruct Hr as [-> | ->]; reflexivity.
  - cbn [forallb] in Hds. apply andb_prop in Hds as [Hc Hds].
    cbn [app span_digits]. rewrite Hc, (IH rest Hds Hr). reflexivity.
Qed.

Lemma match_frac_end : forall rest, value_end rest -> match_frac rest = ([], rest).
Proof.
  intros [|c [|c' r]] Hr; try reflexivity; destruct Hr as [-> | ->]; reflexivity.
Qed.

Lemma match_exp_end : forall rest, value_end rest -> match_exp rest = ([], rest).
Proof. intros [|c r] Hr; [reflexivity|]. destruct Hr as [-> | ->]; reflexivity. Qed.

Lemma int_digits_bound : forall z (ds : pystr), z <> 0 ->
  10 ^ Z.of_nat (length ds) <= Z.abs z -> Z.abs z < 10 ^ int_max_str_digits ->
  (Z.of_nat (length ds) < int_max_str_digits).
Proof.
  intros z ds Hz Hl Hu.
  apply (Z.pow_lt_mono_r_iff 10); [lia | unfold int_max_str_digits; lia | lia].
Qed.

Lemma match_number_int : forall z rest,
  Z.abs z < 10 ^ int_max_str_digits -> value_end rest ->
  match_number (int_repr z ++ rest) = Some (JInt z, rest).
Proof.
  intros z rest Hz Hr.
  destruct (int_repr_spec z) as (sg & d & ds & E & Hsg & Hd & Hds & Hv & H0 & Hp).
  rewrite E. unfold is_digit in Hd. apply andb_prop in Hd as [Hd1 Hd2].
  apply Z.leb_le in Hd1, Hd2.
  destruct (Z.eq_dec z 0) as [Ez|Ez].
  - destruct (H0 Ez) as [-> ->]. subst z.
    destruct Hsg as [[-> _] | [_ Hneg]]; [|lia].
    cbn [app]. unfold match_number. cbn [Z.eqb Pos.eqb Z.leb Z.compare Pos.compare Pos.compare_cont andb].
    rewrite match_frac_end, match_exp_end by exact Hr. reflexivity.
  - destruct (Hp Ez) as [Hd' Hl].
    pose proof (int_digits_bound z ds Ez Hl Hz) as Hb.
    unfold match_number.
    destruct Hsg as [[-> Hpos] | [-> Hneg]]; cbn [app].
    + rewrite (proj2 (Z.eqb_neq d 45)) by lia.
      rewrite (proj2 (Z.leb_le 49 d)), (proj2 (Z.leb_le d 57)) by lia. cbn [andb].
      rewrite span_digits_app, match_frac_end, match_exp_end by assumption.
      rewrite Z.gtb_ltb, (proj2 (Z.ltb_ge _ _)) by (cbn [length]; lia).
      rewrite Hv. f_equal. f_equal. f_equal. lia.
    + cbn [Z.eqb Pos.eqb].
      rewrite (proj2 (Z.leb_le 49 d)), (proj2 (Z.leb_le d 57)) by lia. cbn [andb].
      rewrite span_digits_app, match_frac_end, match_exp_end by assumption.
      rewrite Z.gtb_ltb, (proj2 (Z.ltb_ge _ _)) by (cbn [length]; lia).
      rewrite Hv. f_equal. f_equal. f_equal. lia.
Qed.

Lemma skip_ws_indent : forall n X, skip_ws (newline_indent n ++ X) = skip_ws X.
Proof.
  intros n X. unfold newline_indent. cbn [app skip_ws is_ws Z.eqb Pos.eqb orb].
  induction n as [|n IH]; [reflexivity|]. simpl. exact IH.
Qed.

Lemma skip_ws_nonws : forall c t, is_ws c = false -> skip_ws (c :: t) = c :: t.
Proof. intros c t H. cbn [skip_ws]. rewrite H. reflexivity. Qed.

Lemma splits_app : forall s a b, In (a, b) (splits s) -> s = a ++ b.
Proof.
  intros s a b H. unfold splits in H. apply in_map_iff in H as (n & E & _).
  injection E as <- <-. symmetry. apply firstn_skipn.
Qed.

Lemma float_lit_parts : forall s, float_lit s = true ->
  exists sg ip fr ex, s = sg ++ ip ++ fr ++ ex /\ sign_ok sg = true /\
    int_ok ip = true /\ frac_ok fr = true /\ exp_ok ex = true /\ (fr <> [] \/ ex <> []).
Proof.
  intros s H. unfold float_lit in H.
  apply existsb_exists in H as ([sg r1] & Hin1 & H). cbv beta iota in H.
  apply andb_prop in H as [Hsg H].
  apply existsb_exists in H as ([ip r2] & Hin2 & H). cbv beta iota in H.
  apply andb_prop in H as [Hip H].
  apply existsb_exists in H as ([fr ex] & Hin3 & H). cbv beta iota in H.
  apply andb_prop in H as [H Hne]. apply andb_prop in H as [Hfr Hex].
  exists sg, ip, fr, ex.
  rewrite (splits_app _ _ _ Hin1), (splits_app _ _ _ Hin2), (splits_app _ _ _ Hin3).
  split; [reflexivity|]. repeat (split; [assumption|]).
  destruct fr; [destruct ex; [discriminate | right; discriminate] | left; discriminate].
Qed.

Lemma span_digits_stop : forall ds R, forallb is_digit ds = true ->
  span_digits R = ([], R) -> span_digits (ds ++ R) = (ds, R).
Proof.
  induction ds as [|c ds IH]; intros R Hds HR; [exact HR|].
  cbn [forallb] in Hds. apply andb_prop in Hds as [Hc Hds].
  cbn [app span_digits]. rewrite Hc, (IH R Hds HR). reflexivity.
Qed.

Lemma exp_ok_head : forall e r, exp_ok (e :: r) = true -> e = 101 \/ e = 69.
Proof.
  intros e r H. cbn [exp_ok] in H. apply andb_prop in H as [H _].
  apply orb_true_iff in H as [H|H]; apply Z.eqb_eq in H; auto.
Qed.

Lemma span_digits_exp : forall ex rest, exp_ok ex = true -> value_end rest ->
  span_digits (ex ++ rest) = ([], ex ++ rest).
Proof.
  intros [|e r] rest Hex Hr.
  - cbn [app]. destruct rest as [|c r]; [reflexivity|]. destruct Hr as [-> | ->]; reflexivity.
  - destruct (exp_ok_head e r Hex) as [-> | ->]; reflexivity.
Qed.

Lemma match_exp_lit : forall ex rest, exp_ok ex = true -> value_end rest ->
  match_exp (ex ++ rest) = (ex, rest).
Proof.
  intros [|e r] rest Hex Hr; [apply match_exp_end; exact Hr|].
  pose proof (exp_ok_head e r Hex) as He.
  cbn [exp_ok] in Hex. apply andb_prop in Hex as [He' Hex].
  destruct r as [|c ds]; [discriminate|].
  cbn [app]. unfold match_exp. rewrite He'.
  destruct ((c =? 43) || (c =? 45)) eqn:Hc.
  - destruct ds as [|d ds]; [discriminate|]. cbn [digits1] in Hex.
    rewrite span_digits_app by assumption. reflexivity.
  - cbn [digits1] in Hex. change (c :: ds ++ rest) with ((c :: ds) ++ rest).
    rewrite span_digits_app by assumption. reflexivity.
Qed.

Lemma match_frac_lit : forall fr ex rest, frac_ok fr = true -> exp_ok ex = true ->
  value_end rest -> match_frac (fr ++ ex ++ rest) = (fr, ex ++ rest).
Proof.
  intros [|c ds] ex rest Hfr Hex Hr.
  - cbn [app]. destruct ex as [|e r]; [apply match_frac_end; exact Hr|].
    destruct (exp_ok_head e r Hex) as [-> | ->]; cbn [app];
      unfold match_frac; destruct (r ++ rest); reflexivity.
  - cbn [frac_ok] in Hfr. apply andb_prop in Hfr as [Hc Hds]. apply Z.eqb_eq in Hc. subst c.
    destruct ds as [|d ds]; [discriminate|]. cbn [digits1 forallb] in Hds.
    apply andb_prop in Hds as [Hd Hds].
    cbn [app]. unfold match_frac. rewrite Hd. cbn [Z.eqb Pos.eqb andb].
    rewrite span_digits_stop by (assumption || exact (span_digits_exp ex rest Hex Hr)).
    reflexivity.
Qed.

Lemma int_ok_head : forall c ip, int_ok (c :: ip) = true -> 48 <= c <= 57.
Proof.
  intros c [|d ip] H; cbn [int_ok] in H; unfold is_digit in H;
    repeat (apply andb_prop in H as [? H] || apply andb_prop in H as [H ?]);
    rewrite ?Z.leb_le in *; lia.
Qed.

(** The fraction and exponent of a float literal, read by [match_number]. *)
Ltac frac_exp_tail HF HE Hne fr ex :=
  rewrite HF; cbv beta iota delta [andb]; rewrite HE; cbv beta iota delta [andb];
  destruct Hne as [Hne | Hne]; destruct fr, ex; (congruence || reflexivity).

Lemma match_number_float : forall s rest, float_lit s = true -> value_end rest ->
  match_number (s ++ rest) = Some (JFloat s, rest).
Proof.
  intros s rest Hs Hr.
  destruct (float_lit_parts s Hs) as (sg & ip & fr & ex & -> & Hsg & Hip & Hfr & Hex & Hne).
  pose proof (match_frac_lit fr ex rest Hfr Hex Hr) as HF.
  pose proof (match_exp_lit ex rest Hex Hr) as HE.
  assert (HD : span_digits (fr ++ ex ++ rest) = ([], fr ++ ex ++ rest)).
  { destruct fr as [|c ds]; [exact (span_digits_exp ex rest Hex Hr)|].
    cbn [frac_ok] in Hfr. apply andb_prop in Hfr as [Hc _]. apply Z.eqb_eq in Hc.
    subst c. reflexivity. }
  destruct ip as [|c ip]; [discriminate|].
  pose proof (int_ok_head c ip Hip) as Hc.
  rewrite <- !app_assoc. unfold match_number.
  destruct sg as [|x [|y sg]]; cbn [sign_ok] in Hsg; try discriminate.
  - cbn [app]. rewrite (proj2 (Z.eqb_neq c 45)) by lia. cbv beta iota delta [andb].
    destruct ip as [|d ip].
    + cbn [app]. destruct (Z.eq_dec c 48) as [->|Hc48].
      * cbn [Z.leb Z.compare Pos.compare Pos.compare_cont andb Z.eqb Pos.eqb].
        cbv beta iota delta [andb]. frac_exp_tail HF HE Hne fr ex.
      * rewrite (proj2 (Z.leb_le 49 c)), (proj2 (Z.leb_le c 57)) by lia. cbv beta iota delta [andb].
        rewrite HD. cbv beta iota delta [andb]. frac_exp_tail HF HE Hne fr ex.
    + cbn [int_ok] in Hip. apply andb_prop in Hip as [Hc' Hds].
      apply andb_prop in Hc' as [Hc1 Hc2]. apply Z.leb_le in Hc1, Hc2.
      rewrite (proj2 (Z.leb_le 49 c)), (proj2 (Z.leb_le c 57)) by lia. cbv beta iota delta [andb].
      change ((d :: ip) ++ fr ++ ex ++ rest) with ((d :: ip) ++ (fr ++ ex ++ rest)).
      rewrite span_digits_stop by assumption. cbv beta iota delta [andb].
      frac_exp_tail HF HE Hne fr ex.
  - apply Z.eqb_eq in Hsg. subst x. cbn [app Z.eqb Pos.eqb]. cbv beta iota delta [andb].
    destruct ip as [|d ip].
    + cbn [app]. destruct (Z.eq_dec c 48) as [->|Hc48].
      * cbn [Z.leb Z.compare Pos.compare Pos.compare_cont andb Z.eqb Pos.eqb].
        cbv beta iota delta [andb]. frac_exp_tail HF HE Hne fr ex.
      * rewrite (proj2 (Z.leb_le 49 c)), (proj2 (Z.leb_le c 57)) by lia. cbv beta iota delta [andb].
        rewrite HD. cbv beta iota delta [andb]. frac_exp_tail HF HE Hne fr ex.
    + cbn [int_ok] in Hip. apply andb_prop in Hip as [Hc' Hds].
      apply andb_prop in Hc' as [Hc1 Hc2]. apply Z.leb_le in Hc1, Hc2.
      rewrite (proj2 (Z.leb_le 49 c)), (proj2 (Z.leb_le c 57)) by lia. cbv beta iota delta [andb].
      change ((d :: ip) ++ fr ++ ex ++ rest) with ((d :: ip) ++ (fr ++ ex ++ rest)).
      rewrite span_digits_stop by assumption. cbv beta iota delta [andb].
      frac_exp_tail HF HE Hne fr ex.
Qed.

Lemma floatstr_cases : forall t, float_ok float_repr t = true ->
  (floatstr float_repr t = lit "NaN" /\ float_repr (lit "NaN") = float_repr t) \/
  (floatstr float_repr t = lit "Infinity" /\ float_repr (lit "Infinity") = float_repr t) \/
  (floatstr float_repr t = lit "-Infinity" /\ float_repr (lit "-Infinity") = float_repr t) \/
  (floatstr float_repr t = float_repr t /\ float_lit (float_repr t) = true /\
   float_repr (float_repr t) = float_repr t).
Proof.
  intros t H. unfold float_ok in H. unfold floatstr. cbv zeta in *.
  destruct (str_eqb (float_repr t) (lit "nan")) eqn:E1;
    [left; apply str_eqb_eq in E1, H; rewrite E1, H; split; reflexivity|].
  destruct (str_eqb (float_repr t) (lit "inf")) eqn:E2;
    [right; left; apply str_eqb_eq in E2, H; rewrite E2, H; split; reflexivity|].
  destruct (str_eqb (float_repr t) (lit "-inf")) eqn:E3;
    [right; right; left; apply str_eqb_eq in E3, H; rewrite E3, H; split; reflexivity|].
  right; right; right. apply andb_prop in H as [Hl H]. apply str_eqb_eq in H.
  split; [reflexivity | split; assumption].
Qed.

Lemma float_lit_head : forall s, float_lit s = true ->
  exists c u, s = c :: u /\
    ((c = 45 /\ exists d u', u = d :: u' /\ 48 <= d <= 57) \/ 48 <= c <= 57).
Proof.
  intros s Hs.
  destruct (float_lit_parts s Hs) as (sg & ip & fr & ex & -> & Hsg & Hip & _).
  destruct ip as [|d ip]; [discriminate|]. pose proof (int_ok_head d ip Hip) as Hd.
  destruct sg as [|x [|y sg]]; cbn [sign_ok] in Hsg; try discriminate.
  - exists d, (ip ++ fr ++ ex). split; [reflexivity | right; exact Hd].
  - apply Z.eqb_eq in Hsg. subst x. exists 45, (d :: ip ++ fr ++ ex).
    split; [reflexivity|]. left. split; [reflexivity|]. eexists _, _. split; [reflexivity | exact Hd].
Qed.

Lemma floatstr_head : forall t, float_ok float_repr t = true ->
  exists c u, floatstr float_repr t = c :: u /\ is_ws c = false /\ c <> 93 /\ c <> 125.
Proof.
  intros t Ht.
  destruct (floatstr_cases t Ht) as [[-> _] | [[-> _] | [[-> _] | [-> [Hl _]]]]];
    try (eexists _, _; split; [reflexivity | split; [reflexivity | split; discriminate]]).
  destruct (float_lit_head _ Hl) as (c & u & -> & Hc). exists c, u. split; [reflexivity|].
  unfold is_ws. destruct Hc as [[-> _] | Hc]; [split; [reflexivity | split; discriminate]|].
  split; [zcases; reflexivity | lia].
Qed.

Lemma encode_head : forall lvl v, wf_json v = true -> floats_ok float_repr v = true ->
  exists c t, encode float_repr lvl v = c :: t /\ is_ws c = false /\ c <> 93 /\ c <> 125.
Proof.
  intros lvl v Hv Hf.
  destruct v as [|b|z|t|s|[|x l]|[|kv d]]; try discriminate;
    try (eexists _, _; split; [reflexivity | split; [reflexivity | split; discriminate]]).
  - destruct b; eexists _, _; (split; [reflexivity | split; [reflexivity | split; discriminate]]).
  - destruct (int_repr_spec z) as (sg & d & ds & E & Hsg & Hd & _).
    cbn [encode]. rewrite E. unfold is_digit in Hd.
    apply andb_prop in Hd as [Hd1 Hd2]. apply Z.leb_le in Hd1, Hd2.
    destruct Hsg as [[-> _] | [-> _]]; cbn [app]; eexists _, _;
      (split; [reflexivity|]).
    + unfold is_ws. split; [zcases; reflexivity | lia].
    + split; [reflexivity | split; discriminate].
  - apply floatstr_head. exact Hf.
Qed.

Lemma skip_ws_encode : forall lvl v Y, wf_json v = true -> floats_ok float_repr v = true ->
  skip_ws (encode float_repr lvl v ++ Y) = encode float_repr lvl v ++ Y.
Proof.
  intros lvl v Y Hv Hf.
  destruct (encode_head lvl v Hv Hf) as (c & t & E & Hc & _).
  rewrite E. apply skip_ws_nonws. exact Hc.
Qed.

Lemma join_cons_app : forall (sep a : pystr) m, exists t, join sep (a :: m) = a ++ t.
Proof.
  intros sep a [|b m]; [exists []; rewrite app_nil_r; reflexivity|].
  exists (sep ++ join sep (b :: m)). reflexivity.
Qed.

Lemma skip_ws_join_map {A} : forall sep (F : A -> pystr) x m Y,
  (exists c t, F x = c :: t /\ is_ws c = false) ->
  skip_ws (join sep (map F (x :: m)) ++ Y) = join sep (map F (x :: m)) ++ Y.
Proof.
  intros sep F x m Y (c & t & E & Hc). cbn [map].
  destruct (join_cons_app sep (F x) (map F m)) as [t' E'].
  rewrite E', E. cbn [app]. apply skip_ws_nonws. exact Hc.
Qed.

Lemma dict_set_fresh : forall acc k v, existsb (str_eqb k) (map fst acc) = false ->
  dict_set acc k v = acc ++ [(k, v)].
Proof.
  induction acc as [|[k' v'] acc IH]; intros k v H; [reflexivity|].
  cbn [map existsb fst] in H. apply orb_false_elim in H as [H1 H2].
  cbn [dict_set]. rewrite H1, IH by exact H2. reflexivity.
Qed.

Lemma fresh_step : forall (acc : list (pystr * json)) k v (d : list (pystr * json)),
  (forall k', In k' (map fst ((k, v) :: d)) -> existsb (str_eqb k') (map fst acc) = false) ->
  existsb (str_eqb k) (map fst d) = false ->
  forall k', In k' (map fst d) -> existsb (str_eqb k') (map fst (acc ++ [(k, v)])) = false.
Proof.
  intros acc k v d Hf Hk k' Hin.
  rewrite map_app, existsb_app, Hf by (right; exact Hin). cbn.
  destruct (str_eqb k' k) eqn:E; [|reflexivity].
  apply str_eqb_eq in E. subst k'. exfalso.
  assert (existsb (str_eqb k) (map fst d) = true) as Ht
    by (apply existsb_exists; exists k; split; [exact Hin | apply str_eqb_refl]).
  congruence.
Qed.

Lemma length_encode_str : forall k,
  length (encode_str k) = (length (flat_map ascii_escape k) + 2)%nat.
Proof. intro k. unfold encode_str. rewrite !length_app. cbn [length]. lia. Qed.

Lemma json_nested_ind (P : json -> Prop) :
  P JNull -> (forall b, P (JBool b)) -> (forall z, P (JInt z)) ->
  (forall t, P (JFloat t)) -> (forall s, P (JStr s)) ->
  (forall l, Forall P l -> P (JArr l)) ->
  (forall d, Forall (fun kv => P (snd kv)) d -> P (JObj d)) ->
  forall v, P v.
Proof.
  intros HN HB HI HF HS HA HO. fix F 1. intros [|b|z|t|s|l|d].
  - exact HN.
  - apply HB.
  - apply HI.
  - apply HF.
  - apply HS.
  - apply HA.
    exact ((fix G (l : list json) : Forall P l :=
              match l with
              | [] => Forall_nil P
              | x :: r => @Forall_cons _ P x r (F x) (G r)
              end) l).
  - apply HO.
    exact ((fix G (d : list (pystr * json)) : Forall (fun kv => P (snd kv)) d :=
              match d with
              | [] => Forall_nil _
              | kv :: r =>
                  @Forall_cons _ (fun kv => P (snd kv)) kv r
                    (match kv as kv0 return P (snd kv0) with (k, v) => F v end) (G r)
              end) d).
Qed.

Lemma match_constant_digit : forall d t, 48 <= d <= 57 -> match_constant (d :: t) = None.
Proof.
  intros d t Hd.
  assert (d = 48 \/ d = 49 \/ d = 50 \/ d = 51 \/ d = 52 \/ d = 53 \/ d = 54 \/
          d = 55 \/ d = 56 \/ d = 57) as Hc by lia.
  repeat destruct Hc as [-> | Hc]; subst; reflexivity.
Qed.

Lemma match_constant_minus_digit : forall d t, 48 <= d <= 57 ->
  match_constant (45 :: d :: t) = None.
Proof.
  intros d t Hd.
  assert (d = 48 \/ d = 49 \/ d = 50 \/ d = 51 \/ d = 52 \/ d = 53 \/ d = 54 \/
          d = 55 \/ d = 56 \/ d = 57) as Hc by lia.
  repeat destruct Hc as [-> | Hc]; subst; reflexivity.
Qed.

Lemma scan_once_int : forall f z rest,
  Z.abs z < 10 ^ int_max_str_digits -> value_end rest ->
  scan_once (S f) (int_repr z ++ rest) = Some (JInt z, rest).
Proof.
  intros f z rest Hz Hr.
  pose proof (match_number_int z rest Hz Hr) as HM.
  destruct (int_repr_spec z) as (sg & d & ds & E & Hsg & Hd & _).
  rewrite E in *. unfold is_digit in Hd. apply andb_prop in Hd as [Hd1 Hd2].
  apply Z.leb_le in Hd1, Hd2.
  destruct Hsg as [[-> _] | [-> _]]; cbn [app] in *.
  - cbn [scan_once]. zcases. rewrite match_constant_digit by lia. exact HM.
  - cbn [scan_once Z.eqb Pos.eqb]. rewrite match_constant_minus_digit by lia. exact HM.
Qed.

Lemma lit_open_bracket : forall Y, lit "[" ++ Y = 91 :: Y.
Proof. reflexivity. Qed.

Lemma lit_open_brace : forall Y, lit "{" ++ Y = 123 :: Y.
Proof. reflexivity. Qed.

Lemma scan_once_float : forall f t rest, float_ok float_repr t = true -> value_end rest ->
  scan_once (S f) (floatstr float_repr t ++ rest) = Some (JFloat (floatstr float_repr t), rest).
Proof.
  intros f t rest Ht Hr.
  destruct (floatstr_cases t Ht) as [[-> _] | [[-> _] | [[-> _] | [-> [Hl _]]]]];
    try reflexivity.
  pose proof (match_number_float _ rest Hl Hr) as HM.
  destruct (float_lit_head _ Hl) as (c & u & E & Hc). rewrite E in *. cbn [app] in *.
  destruct Hc as [[-> (d & u' & -> & Hd)] | Hc].
  - cbn [app scan_once Z.eqb Pos.eqb]. rewrite match_constant_minus_digit by lia. exact HM.
  - cbn [scan_once]. zcases. rewrite match_constant_digit by lia. exact HM.
Qed.


Lemma parse_array_encoded : forall lvl l, l <> [] ->
  Forall (elem_ok float_repr (S lvl)) l -> forallb wf_json l = true ->
  forallb (floats_ok float_repr) l = true ->
  forall acc fuel rest,
  le (length (join ([44] ++ newline_indent (S lvl)) (map (encode float_repr (S lvl)) l)
              ++ newline_indent lvl ++ lit "]")) fuel ->
  parse_array fuel
    (join ([44] ++ newline_indent (S lvl)) (map (encode float_repr (S lvl)) l)
     ++ newline_indent lvl ++ lit "]" ++ rest) acc
  = Some (JArr (rev acc ++ map (canon float_repr) l), rest).
Proof.
  intros lvl l Hne Hok Hwf Hfl.
  induction l as [|x l IH]; [congruence|].
  intros acc fuel rest Hlen.
  inversion Hok as [|? ? Hx Hl]; subst.
  cbn [forallb] in Hwf. apply andb_prop in Hwf as [Hwx Hwl].
  cbn [forallb] in Hfl. apply andb_prop in Hfl as [Hfx Hfl].
  destruct fuel as [|f];
    [rewrite !length_app in Hlen; unfold newline_indent in Hlen; cbn [length] in Hlen; lia|].
  destruct l as [|y l].
  - cbn [map join] in *.
    cbn [parse_array].
    rewrite Hx.
    2: { unfold newline_indent. cbn [app]. right. reflexivity. }
    2: { rewrite !length_app in Hlen. unfold newline_indent in Hlen.
         cbn [length lit] in Hlen. lia. }
    rewrite skip_ws_indent. cbn. reflexivity.
  - replace (join ([44] ++ newline_indent (S lvl)) (map (encode float_repr (S lvl)) (x :: y :: l)))
      with (encode float_repr (S lvl) x ++ ([44] ++ newline_indent (S lvl))
            ++ join ([44] ++ newline_indent (S lvl)) (map (encode float_repr (S lvl)) (y :: l)))
      in * by reflexivity.
    rewrite <- !app_assoc.
    cbn [parse_array].
    rewrite Hx.
    2: { cbn [app]. left. reflexivity. }
    2: { rewrite !length_app in Hlen. cbn [length] in Hlen. lia. }
    cbn [app skip_ws is_ws Z.eqb Pos.eqb orb].
    rewrite skip_ws_indent, skip_ws_join_map.
    2: { cbn [forallb] in Hwl, Hfl. apply andb_prop in Hwl as [Hy _].
         apply andb_prop in Hfl as [Hfy _].
         destruct (encode_head (S lvl) y Hy Hfy) as (c & t & ? & ? & _).
         exists c, t. split; assumption. }
    rewrite IH; [| discriminate | exact Hl | exact Hwl | exact Hfl |].
    + cbn [rev map]. rewrite <- app_assoc. reflexivity.
    + rewrite !length_app in *. cbn [length] in Hlen. lia.
Qed.
Lemma parse_object_encoded : forall lvl d, d <> [] ->
  Forall (fun kv => elem_ok float_repr (S lvl) (snd kv)) d ->
  forallb (fun kv => wf_str (fst kv) && wf_json (snd kv)) d = true ->
  forallb (fun kv => floats_ok float_repr (snd kv)) d = true ->
  keys_distinct d = true ->
  forall acc fuel rest,
  (forall k, In k (map fst d) -> existsb (str_eqb k) (map fst acc) = false) ->
  le (length (join ([44] ++ newline_indent (S lvl))
                (map (fun kv => encode_str (fst kv) ++ lit ": "
                                ++ encode float_repr (S lvl) (snd kv)) d)
              ++ newline_indent lvl ++ lit "}")) fuel ->
  parse_object fuel
    (join ([44] ++ newline_indent (S lvl))
       (map (fun kv => encode_str (fst kv) ++ lit ": " ++ encode float_repr (S lvl) (snd kv)) d)
     ++ newline_indent lvl ++ lit "}" ++ rest) acc
  = Some (JObj (acc ++ map (fun kv => (fst kv, canon float_repr (snd kv))) d), rest).
Proof.
  intros lvl d Hne Hok Hwf Hfl Hkd.
  induction d as [|[k v] d IH]; [congruence|].
  intros acc fuel rest Hfresh Hlen.
  inversion Hok as [|? ? Hv Hd]; subst. cbn [snd] in Hv.
  cbn [forallb fst snd] in Hwf. apply andb_prop in Hwf as [Hkv Hwd].
  apply andb_prop in Hkv as [Hk Hwv].
  cbn [forallb snd] in Hfl. apply andb_prop in Hfl as [Hfv Hfd].
  cbn [keys_distinct] in Hkd. apply andb_prop in Hkd as [Hkn Hkd].
  apply negb_true_iff in Hkn.
  assert (Hentry : forall T, encode_str k ++ lit ": " ++ encode float_repr (S lvl) v ++ T
                   = 34 :: flat_map ascii_escape k ++ 34 :: 58 :: 32
                        :: encode float_repr (S lvl) v ++ T).
  { intro T. unfold encode_str. rewrite <- !app_assoc. reflexivity. }
  destruct fuel as [|f];
    [rewrite !length_app in Hlen; unfold newline_indent in Hlen; cbn [length] in Hlen; lia|].
  destruct d as [|[k2 v2] d].
  - replace (join ([44] ++ newline_indent (S lvl))
               (map (fun kv => encode_str (fst kv) ++ lit ": "
                               ++ encode float_repr (S lvl) (snd kv)) [(k, v)]))
      with (encode_str k ++ lit ": " ++ encode float_repr (S lvl) v) in * by reflexivity.
    rewrite <- !app_assoc, Hentry.
    cbn [parse_object Z.eqb Pos.eqb].
    rewrite scanstring_escaped by exact Hk.
    cbn [skip_ws is_ws Z.eqb Pos.eqb orb].
    rewrite skip_ws_encode by assumption.
    rewrite Hv.
    2: { unfold newline_indent. cbn [app]. right. reflexivity. }
    2: { rewrite !length_app, length_encode_str in Hlen. cbn [length lit] in Hlen. lia. }
    rewrite skip_ws_indent. rewrite dict_set_fresh by (apply Hfresh; left; reflexivity).
    cbn. reflexivity.
  - replace (join ([44] ++ newline_indent (S lvl))
               (map (fun kv => encode_str (fst kv) ++ lit ": "
                               ++ encode float_repr (S lvl) (snd kv)) ((k, v) :: (k2, v2) :: d)))
      with ((encode_str k ++ lit ": " ++ encode float_repr (S lvl) v)
            ++ ([44] ++ newline_indent (S lvl))
            ++ join ([44] ++ newline_indent (S lvl))
                 (map (fun kv => encode_str (fst kv) ++ lit ": "
                                 ++ encode float_repr (S lvl) (snd kv)) ((k2, v2) :: d)))
      in * by reflexivity.
    rewrite <- !app_assoc, Hentry.
    cbn [parse_object Z.eqb Pos.eqb].
    rewrite scanstring_escaped by exact Hk.
    cbn [skip_ws is_ws Z.eqb Pos.eqb orb].
    rewrite skip_ws_encode by assumption.
    rewrite Hv.
    2: { cbn [app]. left. reflexivity. }
    2: { rewrite !length_app, length_encode_str in Hlen. cbn [length lit] in Hlen. lia. }
    cbn [app skip_ws is_ws Z.eqb Pos.eqb orb].
    rewrite skip_ws_indent, skip_ws_join_map
      by (eexists _, _; split; reflexivity).
    rewrite dict_set_fresh by (apply Hfresh; left; reflexivity).
    rewrite IH; [| discriminate | exact Hd | exact Hwd | exact Hfd | exact Hkd
                 | exact (fresh_step acc k (canon float_repr v) ((k2, v2) :: d) Hfresh Hkn) |].
    + rewrite <- app_assoc. reflexivity.
    + rewrite !length_app in *.
      rewrite length_encode_str in Hlen. cbn [length lit] in *. lia.
Qed.
Lemma scan_encode : forall v lvl, wf_json v = true -> floats_ok float_repr v = true ->
  ints_printable v = true -> elem_ok float_repr lvl v.
Proof.
  induction v as [| b | z | t | s | l IHl | d IHd] using json_nested_ind;
    intros lvl Hw Hf Hp rest fuel Hr Hlen.
  - destruct fuel; [cbn in Hlen; lia | reflexivity].
  - destruct fuel; [destruct b; cbn in Hlen; lia | destruct b; reflexivity].
  - destruct fuel as [|f]; [|apply scan_once_int; [exact (proj1 (Z.ltb_lt _ _) Hp) | exact Hr]].
    cbn [encode] in Hlen. destruct (int_repr_spec z) as (sg & d & ds & E & _).
    rewrite E, length_app in Hlen. cbn [length] in Hlen. lia.
  - destruct fuel as [|f]; [|apply scan_once_float; assumption].
    destruct (floatstr_head t Hf) as (c & u & E & _).
    cbn [encode] in Hlen. rewrite E in Hlen. cbn [length] in Hlen. lia.
  - destruct fuel as [|f]; [cbn [encode] in Hlen; rewrite length_encode_str in Hlen; lia|].
    cbn [encode]. unfold encode_str. rewrite <- !app_assoc. cbn [app].
    cbn [scan_once Z.eqb Pos.eqb]. rewrite scanstring_escaped by exact Hw. reflexivity.
  - destruct l as [|x l]; [destruct fuel; [cbn in Hlen; lia | reflexivity]|].
    cbn [wf_json floats_ok ints_printable] in Hw, Hf, Hp.
    assert (Hok : Forall (elem_ok float_repr (S lvl)) (x :: l)).
    { apply Forall_forall. intros y Hy. rewrite Forall_forall in IHl.
      apply IHl; [exact Hy | exact (proj1 (forallb_forall _ _) Hw y Hy)
                 | exact (proj1 (forallb_forall _ _) Hf y Hy)
                 | exact (proj1 (forallb_forall _ _) Hp y Hy)]. }
    replace (encode float_repr lvl (JArr (x :: l)))
      with (lit "[" ++ newline_indent (S lvl)
            ++ join ([44] ++ newline_indent (S lvl)) (map (encode float_repr (S lvl)) (x :: l))
            ++ newline_indent lvl ++ lit "]") in * by reflexivity.
    destruct fuel as [|f]; [rewrite !length_app in Hlen; cbn [length lit] in Hlen; lia|].
    rewrite <- !app_assoc, lit_open_bracket.
    cbn [scan_once Z.eqb Pos.eqb].
    rewrite skip_ws_indent.
    cbn [forallb] in Hw. apply andb_prop in Hw as [Hx Hwl].
    cbn [forallb] in Hf. apply andb_prop in Hf as [Hfx Hfl].
    destruct (encode_head (S lvl) x Hx Hfx) as (c & t & Ec & Hcws & Hc93 & _).
    destruct (join_cons_app ([44] ++ newline_indent (S lvl)) (encode float_repr (S lvl) x)
                (map (encode float_repr (S lvl)) l)) as [t' Ej].
    assert (HJ : join ([44] ++ newline_indent (S lvl)) (map (encode float_repr (S lvl)) (x :: l))
                 ++ newline_indent lvl ++ lit "]" ++ rest
                 = c :: ((t ++ t') ++ newline_indent lvl ++ lit "]" ++ rest)).
    { cbn [map]. rewrite Ej, Ec. reflexivity. }
    rewrite HJ, skip_ws_nonws by exact Hcws. cbv beta iota. rewrite (proj2 (Z.eqb_neq c 93) Hc93). cbv beta iota.
    rewrite <- HJ.
    rewrite parse_array_encoded; [reflexivity | discriminate | exact Hok
                                 | cbn [forallb]; rewrite Hx, Hwl; reflexivity
                                 | cbn [forallb]; rewrite Hfx, Hfl; reflexivity |].
    rewrite !length_app in *. cbn [length lit] in *. lia.
  - destruct d as [|[k v] d]; [destruct fuel; [cbn in Hlen; lia | reflexivity]|].
    cbn [wf_json floats_ok ints_printable] in Hw, Hf, Hp.
    apply andb_prop in Hw as [Hkd Hw].
    assert (Hok : Forall (fun kv => elem_ok float_repr (S lvl) (snd kv)) ((k, v) :: d)).
    { apply Forall_forall. intros kv Hkv. rewrite Forall_forall in IHd.
      pose proof (proj1 (forallb_forall _ _) Hw kv Hkv) as Hw'.
      apply andb_prop in Hw' as [_ Hw'].
      apply IHd; [exact Hkv | exact Hw' | exact (proj1 (forallb_forall _ _) Hf kv Hkv)
                 | exact (proj1 (forallb_forall _ _) Hp kv Hkv)]. }
    replace (encode float_repr lvl (JObj ((k, v) :: d)))
      with (lit "{" ++ newline_indent (S lvl)
            ++ join ([44] ++ newline_indent (S lvl))
                 (map (fun kv => encode_str (fst kv) ++ lit ": "
                                 ++ encode float_repr (S lvl) (snd kv)) ((k, v) :: d))
            ++ newline_indent lvl ++ lit "}") in * by reflexivity.
    destruct fuel as [|f]; [rewrite !length_app in Hlen; cbn [length lit] in Hlen; lia|].
    rewrite <- !app_assoc, lit_open_brace.
    cbn [scan_once Z.eqb Pos.eqb].
    rewrite skip_ws_indent.
    assert (HJ : exists r,
      join ([44] ++ newline_indent (S lvl))
        (map (fun kv => encode_str (fst kv) ++ lit ": "
                        ++ encode float_repr (S lvl) (snd kv)) ((k, v) :: d))
      ++ newline_indent lvl ++ lit "}" ++ rest = 34 :: r).
    { destruct d as [|kv2 d2]; eexists; reflexivity. }
    destruct HJ as [r HJ].
    rewrite HJ, skip_ws_nonws by reflexivity. cbv beta iota. cbn [Z.eqb Pos.eqb]. cbv beta iota.
    rewrite <- HJ.
    rewrite parse_object_encoded; [reflexivity | discriminate | exact Hok | exact Hw | exact Hf
                                  | exact Hkd | intros; reflexivity |].
    rewrite !length_app in *. cbn [length lit] in *. lia.
Qed.

Lemma Forall2_map_both {A B C} (R : B -> C -> Prop) (f : A -> B) (g : A -> C) l :
  Forall (fun x => R (f x) (g x)) l -> Forall2 R (map f l) (map g l).
Proof. induction 1; cbn [map]; constructor; assumption. Qed.

Lemma canon_same : forall v, floats_ok float_repr v = true ->
  same_value float_repr (canon float_repr v) v.
Proof.
  induction v as [| b | z | t | s | l IHl | d IHd] using json_nested_ind; intros Hf;
    cbn [canon floats_ok] in *; try constructor.
  - destruct (floatstr_cases t Hf) as [[-> E] | [[-> E] | [[-> E] | [-> [_ E]]]]]; exact E.
  - rewrite <- (map_id l) at 2. apply Forall2_map_both. apply Forall_forall.
    intros x Hx. rewrite Forall_forall in IHl.
    apply IHl; [exact Hx | exact (proj1 (forallb_forall _ _) Hf x Hx)].
  - rewrite map_map. reflexivity.
  - rewrite map_map. apply Forall2_map_both. apply Forall_forall.
    intros kv Hkv. rewrite Forall_forall in IHd. cbn [snd].
    apply IHd; [exact Hkv | exact (proj1 (forallb_forall _ _) Hf kv Hkv)].
Qed.

Lemma canon_float_free : forall v, float_free v = true -> canon float_repr v = v.
Proof.
  induction v as [| b | z | t | s | l IHl | d IHd] using json_nested_ind; intros Hf;
    cbn [canon float_free] in *; try reflexivity; try discriminate.
  - f_equal. rewrite <- (map_id l) at 2. apply map_ext_in. intros x Hx.
    rewrite Forall_forall in IHl.
    apply IHl; [exact Hx | exact (proj1 (forallb_forall _ _) Hf x Hx)].
  - f_equal. rewrite <- (map_id d) at 2. apply map_ext_in. intros [k v] Hkv.
    rewrite Forall_forall in IHd. cbn [fst snd]. f_equal.
    apply (IHd (k, v)); [exact Hkv | exact (proj1 (forallb_forall _ _) Hf (k, v) Hkv)].
Qed.

(** C9: when [generate_report] writes the report, parsing the written text
    back with [json.loads] gives the assembled report as [json.dump] wrote
    it, and its "issues" entry holds the assembled issues, element for
    element, in order, each the same Python value as the one assembled
    (floats compare by [repr], so a NaN reads back as NaN); issues without
    floats read back unchanged. Issues are values Python can hold (valid str
    values, dicts with distinct keys) whose floats behave as CPython's do,
    and the playbook path and the timestamp are valid str values. *)
Theorem generate_report_round_trip :
  forall io playbook_path all_issues output_report_path report_timestamp path text,
  wf_str playbook_path = true -> wf_str report_timestamp = true ->
  forallb wf_json all_issues = true ->
  forallb (floats_ok float_repr) all_issues = true ->
  generate_report float_repr io playbook_path all_issues output_report_path report_timestamp
    = ReportWritten path text ->
  json_loads text = Some (canon float_repr (build_report playbook_path all_issues report_timestamp)) /\
  exists d decoded, json_loads text = Some (JObj d) /\
    dict_get d (lit "issues") = Some (JArr decoded) /\
    Forall2 (same_value float_repr) decoded all_issues /\
    (forallb float_free all_issues = true -> decoded = all_issues).
Proof.
  intros io pp issues out ts path text Hpp Hts Hiss Hfl H.
  unfold generate_report in H.
  set (report := build_report pp issues ts) in H.
  destruct (_ && _ && ints_printable report && _) eqn:E; [|discriminate].
  assert (Ht : encode float_repr 0 report = text) by (injection H; intros; assumption).
  subst text.
  apply andb_prop in E as [E _]. apply andb_prop in E as [_ Hp].
  assert (Hw : wf_json report = true).
  { unfold report, build_report. cbn [wf_json forallb fst snd].
    rewrite Hts, Hpp, Hiss. destruct issues; reflexivity. }
  assert (Hf : floats_ok float_repr report = true).
  { unfold report, build_report. cbn [floats_ok forallb snd]. rewrite Hfl. reflexivity. }
  pose proof (scan_encode report 0 Hw Hf Hp [] (2 * length (encode float_repr 0 report) + 2)%nat
                I ltac:(lia)) as Hs.
  rewrite app_nil_r in Hs.
  assert (Hl : json_loads (encode float_repr 0 report) = Some (canon float_repr report)).
  { unfold json_loads. rewrite <- (app_nil_r (encode float_repr 0 report)) at 2.
    rewrite skip_ws_encode by assumption. rewrite app_nil_r, Hs. reflexivity. }
  rewrite Hl. split; [reflexivity|].
  eexists. exists (map (canon float_repr) issues).
  split; [reflexivity|]. split; [reflexivity|]. split.
  - rewrite <- (map_id issues) at 2. apply Forall2_map_both. apply Forall_forall.
    intros x Hx. apply canon_same. exact (proj1 (forallb_forall _ _) Hfl x Hx).
  - intro Hff. rewrite <- (map_id issues) at 2. apply map_ext_in. intros x Hx.
    apply canon_float_free. exact (proj1 (forallb_forall _ _) Hff x Hx).
Qed.
End RoundTripProofs.

(** ** Runs on sample inputs *)

Lemma apply_custom_rules_pattern_raises_witness :
  In (pattern_rule ".{4294967296}") [pattern_rule ".{4294967296}"; demo_rule_json] /\
  splitlines demo_playbook <> [] /\
  apply_custom_rules_full demo_float_repr demo_printable demo_rt demo_playbook
    [pattern_rule ".{4294967296}"; demo_rule_json] (lit "site.yml") = None.
Proof.
  split; [left; reflexivity|]. split; [vm_compute; discriminate|].
  apply (apply_custom_rules_pattern_raises demo_float_repr demo_printable demo_rt _ _ _
           (pattern_rule ".{4294967296}") (lit ".{4294967296}"));
    [left; reflexivity | reflexivity | reflexivity | vm_compute; discriminate].
Defined.

(** C2: the linter ran cleanly or failed to start, the custom rule finds an
    issue, and the run exits with status 0. *)
Lemma main_full_counterexample :
  merged_issues (demo_main_full (demo_files demo_rules_file)) <> Some [] /\
  exit_code (demo_main_full (demo_files demo_rules_file)) = 0 /\
  exit_code (demo_main_full (mkFileEnv true (LintSpawnFailed (lit "E")) (Some demo_rules_file)
                               (Some demo_playbook) io_ok (lit "T"))) = 0.
Proof. vm_compute. split; [discriminate | split; reflexivity]. Defined.


Lemma main_merges_lint_then_custom_witness :
  merged_issues (demo_main (demo_env [demo_rule] io_ok))
  = Some ([] ++ apply_custom_rules demo_re_compile demo_playbook [demo_rule] (lit "site.yml")).
Proof.
  apply (main_merges_lint_then_custom demo_re_compile demo_upper demo_float_repr demo_printable
           (lit "site.yml") (lit "out/report.json") (demo_env [demo_rule] io_ok)
           [demo_rule] demo_playbook); reflexivity.
Defined.

(** C3: no issue, the report file cannot be written, and the run ends
    with status 0 exactly like a run that wrote its report. *)
Lemma main_write_failure_counterexample :
  report_file (demo_main (demo_env [] io_write_fails)) = Some ReportFailed /\
  exit_code (demo_main (demo_env [] io_write_fails))
  = exit_code (demo_main (demo_env [] io_ok)) /\
  exit_code (demo_main (demo_env [] io_write_fails)) = 0.
Proof. vm_compute. split; [reflexivity | split; reflexivity]. Defined.

Lemma main_write_failure_exit_zero_witness :
  exit_code (demo_main (demo_env [] io_write_fails)) = 0 /\
  report_file (demo_main (demo_env [] io_write_fails)) = Some ReportFailed.
Proof.
  apply (main_write_failure_exit_zero demo_re_compile demo_upper demo_float_repr demo_printable
           (lit "site.yml") (lit "out/report.json") (demo_env [] io_write_fails) [] demo_playbook);
    try reflexivity.
  right; right; reflexivity.
Defined.

Lemma lint_issue_field_mapping_witness :
  In default_lint_issue (demo_parse (lit "[{}]")) /\
  exists items d, json_loads (lit "[{}]") = Some (JArr items) /\ In (JObj d) items.
Proof.
  assert (H : In default_lint_issue (demo_parse (lit "[{}]")))
    by (vm_compute; left; reflexivity).
  split; [exact H|].
  destruct (lint_issue_field_mapping demo_upper demo_float_repr demo_printable
              (lit "[{}]") (lit "site.yml") default_lint_issue H)
    as (items & d & ri & sev & H1 & H2 & _).
  exists items, d. split; assumption.
Defined.

Lemma parse_lint_prefix_until_exception_witness :
  demo_parse (lit "[{}, 1, {}]") = [default_lint_issue].
Proof.
  destruct (parse_lint_prefix_until_exception demo_upper demo_float_repr demo_printable
              (lit "site.yml")) as (_ & Hb & _).
  apply (Hb (lit "[{}, 1, {}]") [JObj []] (JInt 1) [JObj []] [default_lint_issue]);
    vm_compute; reflexivity.
Defined.

(** C10: the first element that is not a dict is the third, yet the
    result is empty although the second element, an empty dict, builds an
    issue: the first element raises because its "rule" value is an int. *)
Lemma parse_lint_prefix_counterexample :
  json_loads rule_not_dict_input
  = Some (JArr [JObj [(lit "rule", JInt 5)]; JObj []; JInt 1]) /\
  lint_issue demo_upper demo_float_repr demo_printable (JObj []) (lit "site.yml")
  = Some default_lint_issue /\
  demo_parse rule_not_dict_input = [].
Proof. vm_compute. split; [reflexivity | split; reflexivity]. Defined.

Lemma generate_report_round_trip_witness :
  exists decoded,
  dict_get
    match json_loads (encode sample_float_repr 0
                        (build_report (lit "site.yml") [float_issue] (lit "T"))) with
    | Some (JObj d) => d
    | _ => []
    end (lit "issues")
  = Some (JArr decoded) /\ Forall2 (same_value sample_float_repr) decoded [float_issue].
Proof.
  assert (Hw : generate_report sample_float_repr io_ok (lit "site.yml") [float_issue]
                 (lit "out/report.json") (lit "T")
               = ReportWritten (lit "out/report.json")
                   (encode sample_float_repr 0
                      (build_report (lit "site.yml") [float_issue] (lit "T"))))
    by (vm_compute; reflexivity).
  destruct (generate_report_round_trip sample_float_repr io_ok (lit "site.yml") [float_issue]
              (lit "out/report.json") (lit "T") _ _ eq_refl eq_refl eq_refl eq_refl Hw)
    as [_ (d & decoded & H2 & H3 & H4 & _)].
  exists decoded. rewrite H2. split; [exact H3 | exact H4].
Defined.

(** ** Further properties of the code *)

Section Splitting.

Variable re_compile : pystr -> option (pystr -> bool).

Lemma splitlines_aux_line : forall l (b : bool) rest cur,
  forallb (fun c => negb (is_line_break c)) l = true ->
  splitlines_aux (l ++ (if b then [13; 10] else [10]) ++ rest) cur
  = (rev cur ++ l) :: splitlines_aux rest [].
Proof.
  induction l as [|c l IH]; intros b rest cur Hl; simpl.
  - rewrite app_nil_r. destruct b; reflexivity.
  - apply andb_prop in Hl as [Hc Hl]. apply negb_true_iff in Hc.
    assert (H13 : (c =? 13) = false).
    { destruct (Z.eqb_spec c 13); [subst; discriminate | reflexivity]. }
    rewrite H13, Hc. rewrite (IH b rest (c :: cur) Hl). simpl.
    rewrite <- app_assoc. reflexivity.
Qed.

Lemma splitlines_join_lines : forall lines crlf,
  length lines = length crlf ->
  Forall (fun l => forallb (fun c => negb (is_line_break c)) l = true) lines ->
  splitlines (join_lines lines crlf) = lines.
Proof.
  unfold splitlines.
  induction lines as [|l ls IH]; intros [|b bs] Hlen Hl; simpl in *; try discriminate.
  - reflexivity.
  - inversion Hl; subst. rewrite splitlines_aux_line by assumption. simpl.
    rewrite IH by (try lia; assumption). reflexivity.
Qed.

Theorem apply_custom_rules_line_endings : forall lines crlf crlf' rules playbook_path,
  length crlf = length lines -> length crlf' = length lines ->
  Forall (fun l => forallb (fun c => negb (is_line_break c)) l = true) lines ->
  apply_custom_rules re_compile (join_lines lines crlf) rules playbook_path
  = apply_custom_rules re_compile (join_lines lines crlf') rules playbook_path.
Proof.
  intros lines crlf crlf' rules path H1 H2 Hl. unfold apply_custom_rules.
  rewrite !splitlines_join_lines by (try lia; assumption). reflexivity.
Qed.

End Splitting.

Section ScanMembership.

Variable re_compile : pystr -> option (pystr -> bool).

Lemma check_rules_in : forall rules line n path f,
  In f (check_rules re_compile rules line n path) <->
  exists r search, In r rules /\ re_compile (rule_pattern r) = Some search /\
                   search line = true /\ f = custom_finding r line n path.
Proof.
  induction rules as [|r rest IH]; intros line n path f; simpl.
  - split; [contradiction|]. intros (r & search & [] & _).
  - destruct (re_compile (rule_pattern r)) as [search|] eqn:Er;
      [destruct (search line) eqn:Es|]; simpl; rewrite ?IH; split.
    + intros [<- | (r' & s' & H1 & H2 & H3 & H4)].
      * exists r, search. auto.
      * exists r', s'. auto.
    + intros (r' & s' & [<- | H1] & H2 & H3 & H4).
      * left. rewrite Er in H2. injection H2 as <-. auto.
      * right. exists r', s'. auto.
    + intros (r' & s' & H1 & H2 & H3 & H4). exists r', s'. auto.
    + intros (r' & s' & [<- | H1] & H2 & H3 & H4).
      * rewrite Er in H2. injection H2 as <-. congruence.
      * exists r', s'. auto.
    + intros (r' & s' & H1 & H2 & H3 & H4). exists r', s'. auto.
    + intros (r' & s' & [<- | H1] & H2 & H3 & H4).
      * congruence.
      * exists r', s'. auto.
Qed.

Lemma scan_lines_in : forall lines i rules path f,
  In f (scan_lines re_compile lines i rules path) <->
  exists k line, nth_error lines k = Some line /\
                 In f (check_rules re_compile rules line (i + Z.of_nat k + 1) path).
Proof.
  induction lines as [|l ls IH]; intros i rules path f; simpl.
  - split; [contradiction|]. intros (k & line & H & _). destruct k; discriminate.
  - rewrite in_app_iff, IH. split.
    + intros [H | (k & line & H1 & H2)].
      * exists 0%nat, l. split; [reflexivity|]. rewrite Z.add_0_r. assumption.
      * exists (S k), line. split; [assumption|].
        replace (i + Z.of_nat (S k) + 1) with (i + 1 + Z.of_nat k + 1) by lia. assumption.
    + intros ([|k] & line & H1 & H2); simpl in H1.
      * injection H1 as <-. left. rewrite Z.add_0_r in H2. assumption.
      * right. exists k, line. split; [assumption|].
        replace (i + 1 + Z.of_nat k + 1) with (i + Z.of_nat (S k) + 1) by lia. assumption.
Qed.

Theorem apply_custom_rules_findings : forall content rules playbook_path f,
  In f (apply_custom_rules re_compile content rules playbook_path) <->
  exists k line r search,
    nth_error (splitlines content) k = Some line /\ In r rules /\
    re_compile (rule_pattern r) = Some search /\ search line = true /\
    f = custom_finding r line (Z.of_nat k + 1) playbook_path.
Proof.
  intros content rules path f. unfold apply_custom_rules. rewrite scan_lines_in. split.
  - intros (k & line & H1 & H2). apply check_rules_in in H2 as (r & s & H3 & H4 & H5 & H6).
    exists k, line, r, s. repeat split; auto.
  - intros (k & line & r & s & H1 & H2 & H3 & H4 & H5). exists k, line. split; [assumption|].
    apply check_rules_in. exists r, s. auto.
Qed.

Lemma check_rules_length : forall rules line n path,
  (length (check_rules re_compile rules line n path) <= length rules)%nat.
Proof.
  induction rules as [|r rules IH]; intros line n path; [reflexivity|]. cbn [check_rules].
  destruct (re_compile (rule_pattern r)) as [search|].
  - destruct (search line); cbn [length]; specialize (IH line n path); lia.
  - specialize (IH line n path). cbn [length]. lia.
Qed.

Theorem apply_custom_rules_count : forall content rules playbook_path,
  (length (apply_custom_rules re_compile content rules playbook_path)
   <= length (splitlines content) * length rules)%nat.
Proof.
  intros content rules path. unfold apply_custom_rules. generalize 0.
  induction (splitlines content) as [|line rest IH]; intro i; [reflexivity|].
  cbn [scan_lines length]. rewrite length_app.
  pose proof (check_rules_length rules line (i + 1) path). specialize (IH (i + 1)). lia.
Qed.

End ScanMembership.

Lemma drop_to_slash_none : forall s,
  forallb (fun c => negb (c =? 47)) s = true -> drop_to_slash s = [].
Proof.
  induction s as [|c s IH]; intro H; simpl in *; [reflexivity|].
  apply andb_prop in H as [Hc H]. apply negb_true_iff in Hc. rewrite Hc. auto.
Qed.

Theorem generate_report_bare_filename : forall float_repr io playbook_path all_issues
    output_report_path report_timestamp,
  forallb (fun c => negb (c =? 47)) output_report_path = true ->
  generate_report float_repr io playbook_path all_issues output_report_path report_timestamp
  = ReportFailed.
Proof.
  intros fr io pp issues out ts H. unfold generate_report, dirname.
  rewrite drop_to_slash_none by (rewrite forallb_forall in *; intros x Hx;
                                   apply H; apply in_rev; assumption).
  reflexivity.
Qed.

Section RawRules.

Local Arguments lit : simpl never.

Variable re_compile : pystr -> option (pystr -> bool).

Lemma splitlines_aux_nil : forall s cur, splitlines_aux s cur = [] -> s = [] /\ cur = [].
Proof.
  induction s as [|c s IH]; intros cur H; simpl in H.
  - destruct cur; [split; reflexivity | discriminate].
  - destruct (c =? 13); [destruct s as [|c' s]; [discriminate|]; destruct (c' =? 10); discriminate|].
    destruct (is_line_break c); [discriminate|]. apply IH in H as [_ H]. discriminate.
Qed.

Lemma check_rules_raw_bad : forall rules r line n path,
  In r rules -> (forall p, py_index r (lit "pattern") <> Some (JStr p)) ->
  check_rules_raw re_compile rules line n path = None.
Proof.
  induction rules as [|r0 rest IH]; intros r line n path Hin Hbad; [contradiction|].
  simpl. destruct Hin as [<- | Hin].
  - destruct (py_index r0 (lit "pattern")) as [[| | | |p| |]|]; try reflexivity.
    exfalso. exact (Hbad p eq_refl).
  - rewrite (IH r line n path Hin Hbad).
    destruct (py_index r0 (lit "pattern")) as [[| | | |p| |]|]; try reflexivity.
    destruct (re_compile p) as [search|]; [destruct (search line)|].
    + destruct (py_index r0 (lit "id")), (py_index r0 (lit "severity")),
        (py_index r0 (lit "description")); reflexivity.
    + reflexivity.
    + destruct (py_index r0 (lit "id")); reflexivity.
Qed.

Lemma apply_custom_rules_raw_bad : forall content rules r path,
  content <> [] -> In r rules -> (forall p, py_index r (lit "pattern") <> Some (JStr p)) ->
  apply_custom_rules_raw re_compile content rules path = None.
Proof.
  intros content rules r path Hc Hin Hbad. unfold apply_custom_rules_raw.
  destruct (splitlines content) as [|line rest] eqn:E.
  - apply splitlines_aux_nil in E as [E _]. contradiction.
  - simpl. rewrite (check_rules_raw_bad rules r line _ path Hin Hbad). reflexivity.
Qed.

Lemma check_rules_raw_refines : forall raw rules line n path,
  Forall2 (fun r r' => rule_of_json r = Some r') raw rules ->
  check_rules_raw re_compile raw line n path = Some (check_rules re_compile rules line n path).
Proof.
  intros raw rules line n path H. induction H as [|r r' raw rules Hr _ IH]; [reflexivity|].
  simpl. unfold rule_of_json in Hr. destruct r as [| | | | | |d]; try discriminate. simpl.
  destruct (dict_get d (lit "id")) as [i|]; [|discriminate].
  destruct (dict_get d (lit "pattern")) as [[| | | |p| |]|]; try discriminate.
  destruct (dict_get d (lit "description")) as [de|]; [|discriminate].
  destruct (dict_get d (lit "severity")) as [sev|]; [|discriminate].
  injection Hr as <-. simpl.
  destruct (re_compile p) as [search|]; [destruct (search line)|]; rewrite IH; reflexivity.
Qed.

Lemma apply_custom_rules_raw_refines : forall content raw rules path,
  Forall2 (fun r r' => rule_of_json r = Some r') raw rules ->
  apply_custom_rules_raw re_compile content raw path
  = Some (apply_custom_rules re_compile content rules path).
Proof.
  intros content raw rules path H. unfold apply_custom_rules_raw, apply_custom_rules.
  generalize 0. induction (splitlines content) as [|line rest IH]; intro i; simpl; [reflexivity|].
  rewrite (check_rules_raw_refines raw rules line (i + 1) path H), IH. reflexivity.
Qed.

Variable py_upper : pystr -> pystr.
Variable float_repr : pystr -> pystr.
Variable uni_printable : Z -> bool.

Theorem main_files_refines_main : forall playbook_file output_report_path e raw rules,
  load_custom_rules (fe_rules_file e) = Some raw ->
  Forall2 (fun r r' => rule_of_json r = Some r') raw rules ->
  main_files re_compile py_upper float_repr uni_printable playbook_file output_report_path e
  = main re_compile py_upper float_repr uni_printable playbook_file output_report_path
      (env_of_files e rules).
Proof.
  intros pf out e raw rules Hl Hf. unfold main_files, main, env_of_files. simpl.
  destruct (fe_playbook_exists e); [|reflexivity]. simpl.
  destruct (run_ansible_lint (fe_lint e)) as [[o er] rc]. rewrite Hl.
  destruct (fe_playbook_text e) as [content|]; [|reflexivity].
  rewrite (apply_custom_rules_raw_refines content raw rules pf Hf). reflexivity.
Qed.

Theorem main_files_rule_without_pattern : forall playbook_file output_report_path e raw content r,
  fe_playbook_exists e = true ->
  load_custom_rules (fe_rules_file e) = Some raw ->
  fe_playbook_text e = Some content -> content <> [] ->
  In r raw -> (forall p, py_index r (lit "pattern") <> Some (JStr p)) ->
  main_files re_compile py_upper float_repr uni_printable playbook_file output_report_path e
  = early_exit.
Proof.
  intros pf out e raw content r He Hl Ht Hc Hin Hbad. unfold main_files.
  rewrite He. simpl. destruct (run_ansible_lint (fe_lint e)) as [[o er] rc].
  rewrite Hl, Ht, (apply_custom_rules_raw_bad content raw r pf Hc Hin Hbad). reflexivity.
Qed.

End RawRules.

Section EncoderProps.

Variable float_repr : pystr -> pystr.

Lemma all_ascii_app : forall a b, all_ascii (a ++ b) = all_ascii a && all_ascii b.
Proof. intros a b. unfold all_ascii. apply forallb_app. Qed.

Lemma all_ascii_cons : forall c s,
  all_ascii (c :: s) = (0 <=? c) && (c <? 128) && all_ascii s.
Proof. reflexivity. Qed.

Lemma hex_digit_ascii : forall n, 0 <= n < 16 -> (0 <=? hex_digit n) && (hex_digit n <? 128) = true.
Proof.
  intros n Hn. unfold hex_digit.
  destruct (Z.ltb_spec n 10); apply andb_true_intro; split; apply Z.leb_le || apply Z.ltb_lt; lia.
Qed.

Lemma hex_fixed_ascii : forall w n, all_ascii (hex_fixed w n) = true.
Proof.
  induction w as [|w IH]; intro n; [reflexivity|]. simpl.
  rewrite all_ascii_app, IH. simpl. rewrite hex_digit_ascii by (apply Z.mod_pos_bound; lia).
  reflexivity.
Qed.

Lemma u_escape_ascii : forall n, all_ascii (u_escape n) = true.
Proof. intro n. unfold u_escape. rewrite all_ascii_app, hex_fixed_ascii. reflexivity. Qed.

Lemma ascii_escape_ascii : forall c, all_ascii (ascii_escape c) = true.
Proof.
  intro c. unfold ascii_escape.
  destruct ((32 <=? c) && (c <=? 126) && negb (c =? 92) && negb (c =? 34)) eqn:E.
  - apply andb_prop in E as [E _]. apply andb_prop in E as [E _].
    apply andb_prop in E as [E1 E2]. apply Z.leb_le in E1. apply Z.leb_le in E2.
    rewrite all_ascii_cons. apply andb_true_intro; split; [|reflexivity].
    apply andb_true_intro; split; [apply Z.leb_le | apply Z.ltb_lt]; lia.
  - repeat match goal with |- context [if ?b then _ else _] => destruct b end;
      try reflexivity; rewrite ?all_ascii_app, ?u_escape_ascii; reflexivity.
Qed.

Lemma flat_map_ascii : forall {A} (F : A -> pystr) l,
  (forall x, all_ascii (F x) = true) -> all_ascii (flat_map F l) = true.
Proof.
  intros A F l H. induction l as [|x l IH]; [reflexivity|]. simpl.
  rewrite all_ascii_app, H, IH. reflexivity.
Qed.

Lemma encode_str_ascii : forall s, all_ascii (encode_str s) = true.
Proof.
  intro s. unfold encode_str. rewrite !all_ascii_app, flat_map_ascii by apply ascii_escape_ascii.
  reflexivity.
Qed.

Lemma pos_digits_ascii : forall f n acc, 0 <= n -> all_ascii acc = true ->
  all_ascii (pos_digits f n acc) = true.
Proof.
  induction f as [|f IH]; intros n acc Hn Hacc; cbn [pos_digits]; [assumption|].
  destruct (Z.ltb_spec n 10).
  - rewrite all_ascii_cons, Hacc. apply andb_true_intro; split; [|reflexivity].
    apply andb_true_intro; split; [apply Z.leb_le | apply Z.ltb_lt]; lia.
  - apply IH; [apply Z.div_pos; lia|]. rewrite all_ascii_cons, Hacc.
    pose proof (Z.mod_pos_bound n 10 ltac:(lia)).
    apply andb_true_intro; split; [|reflexivity].
    apply andb_true_intro; split; [apply Z.leb_le | apply Z.ltb_lt]; lia.
Qed.

Lemma int_repr_ascii : forall z, all_ascii (int_repr z) = true.
Proof.
  intro z. unfold int_repr. destruct (Z.ltb_spec z 0).
  - rewrite all_ascii_cons, (pos_digits_ascii _ (- z) []); [reflexivity | lia | reflexivity].
  - apply pos_digits_ascii; [lia | reflexivity].
Qed.

Lemma newline_indent_ascii : forall n, all_ascii (newline_indent n) = true.
Proof.
  intro n. unfold newline_indent. rewrite all_ascii_cons.
  assert (H : all_ascii (concat (repeat (lit "    ") n)) = true).
  { induction n as [|n IH]; [reflexivity|]. cbn [repeat concat].
    rewrite all_ascii_app, IH. reflexivity. }
  rewrite H. reflexivity.
Qed.

Lemma join_ascii : forall sep l, all_ascii sep = true -> Forall (fun x => all_ascii x = true) l ->
  all_ascii (join sep l) = true.
Proof.
  intros sep l Hs Hl. induction Hl as [|x l Hx Hl IH]; [reflexivity|].
  destruct l as [|y l]; [exact Hx|].
  change (join sep (x :: y :: l)) with (x ++ sep ++ join sep (y :: l)).
  rewrite !all_ascii_app, Hx, Hs, IH. reflexivity.
Qed.

Hypothesis float_repr_ascii : forall t, all_ascii (float_repr t) = true.

Lemma encode_ascii : forall v lvl, all_ascii (encode float_repr lvl v) = true.
Proof.
  induction v as [| b | z | t | s | l IH | d IH] using json_nested_ind; intro lvl.
  - reflexivity.
  - destruct b; reflexivity.
  - apply int_repr_ascii.
  - simpl. unfold floatstr.
    repeat match goal with |- context [if ?b then _ else _] => destruct b end;
      try reflexivity; apply float_repr_ascii.
  - apply encode_str_ascii.
  - destruct l as [|x l]; [reflexivity|].
    change (encode float_repr lvl (JArr (x :: l))) with
      (lit "[" ++ newline_indent (S lvl)
       ++ join ([44] ++ newline_indent (S lvl)) (map (encode float_repr (S lvl)) (x :: l))
       ++ newline_indent lvl ++ lit "]").
    rewrite !all_ascii_app, !newline_indent_ascii, join_ascii; [reflexivity| |].
    + rewrite all_ascii_app, newline_indent_ascii. reflexivity.
    + apply Forall_map. eapply Forall_impl; [|exact IH]. intros a Ha. apply Ha.
  - destruct d as [|kv d]; [reflexivity|].
    change (encode float_repr lvl (JObj (kv :: d))) with
      (lit "{" ++ newline_indent (S lvl)
       ++ join ([44] ++ newline_indent (S lvl))
            (map (fun kv => encode_str (fst kv) ++ lit ": " ++ encode float_repr (S lvl) (snd kv))
                 (kv :: d))
       ++ newline_indent lvl ++ lit "}").
    rewrite !all_ascii_app, !newline_indent_ascii, join_ascii; [reflexivity| |].
    + rewrite all_ascii_app, newline_indent_ascii. reflexivity.
    + apply Forall_map. eapply Forall_impl; [|exact IH]. intros a Ha.
      rewrite !all_ascii_app, encode_str_ascii, Ha. reflexivity.
Qed.

Theorem generate_report_ascii : forall io playbook_path all_issues output_report_path
    report_timestamp path text,
  generate_report float_repr io playbook_path all_issues output_report_path report_timestamp
    = ReportWritten path text ->
  path = output_report_path /\ all_ascii text = true.
Proof.
  intros io pp issues out ts path text H. unfold generate_report in H.
  destruct (_ && _ && _ && _); [|discriminate].
  assert (Hp : out = path) by (injection H; intros; assumption).
  assert (Ht : encode float_repr 0 (build_report pp issues ts) = text)
    by (injection H; intros; assumption).
  subst path text. split; [reflexivity | apply encode_ascii].
Qed.

End EncoderProps.

Section LoadRules.

Local Arguments lit : simpl never.

Lemma all_keys_in_iff : forall r ks,
  all_keys_in r ks = Some true <-> Forall (fun k => py_contains r k = Some true) ks.
Proof.
  intros r. induction ks as [|k ks IH]; simpl.
  - split; intros; [constructor | reflexivity].
  - destruct (py_contains r k) as [[|]|] eqn:E; split; intro H.
    + apply IH in H. constructor; assumption.
    + inversion H; subst. apply IH; assumption.
    + discriminate.
    + inversion H; congruence.
    + discriminate.
    + inversion H; congruence.
Qed.

Lemma existsb_jstr : forall l k,
  existsb (fun v => match v with JStr s => str_eqb s k | _ => false end) l = true <-> In (JStr k) l.
Proof.
  intros l k. rewrite existsb_exists. split.
  - intros ([| | | |s| |] & Hin & H); try discriminate. apply str_eqb_eq in H. subst. assumption.
  - intro H. exists (JStr k). split; [assumption | apply str_eqb_refl].
Qed.

Lemma rule_shape_iff : forall r,
  match all_keys_in r required_keys with Some true => true | _ => false end = true <->
  rule_shape_ok r.
Proof.
  intro r. unfold rule_shape_ok.
  assert (E : forall o : option bool, match o with Some true => true | _ => false end = true
                                      <-> o = Some true)
    by (intros [[|]|]; split; intro; congruence).
  rewrite E, all_keys_in_iff.
  destruct r as [| b | z | t | s | l | d]; simpl.
  - split; [intro H; inversion H; discriminate|].
    intros [(d & H & _) | [(l & H & _) | (s & H & _)]]; discriminate.
  - split; [intro H; inversion H; discriminate|].
    intros [(d & H & _) | [(l & H & _) | (s & H & _)]]; discriminate.
  - split; [intro H; inversion H; discriminate|].
    intros [(d & H & _) | [(l & H & _) | (s & H & _)]]; discriminate.
  - split; [intro H; inversion H; discriminate|].
    intros [(d & H & _) | [(l & H & _) | (s & H & _)]]; discriminate.
  - split.
    + intro H. right; right. exists s. split; [reflexivity|].
      eapply Forall_impl; [|exact H]. intros k Hk. injection Hk as ->. reflexivity.
    + intros [(d & H & _) | [(l & H & _) | (s' & H & Hf)]]; try discriminate.
      injection H as <-. eapply Forall_impl; [|exact Hf]. intros k Hk. rewrite Hk. reflexivity.
  - split.
    + intro H. right; left. exists l. split; [reflexivity|].
      eapply Forall_impl; [|exact H]. intros k Hk. injection Hk as Hk.
      apply existsb_jstr. assumption.
    + intros [(d & H & _) | [(l' & H & Hf) | (s & H & _)]]; try discriminate.
      injection H as <-. eapply Forall_impl; [|exact Hf]. intros k Hk.
      apply existsb_jstr in Hk. rewrite Hk. reflexivity.
  - split.
    + intro H. left. exists d. split; [reflexivity|].
      eapply Forall_impl; [|exact H]. intros k Hk.
      simpl in Hk. destruct (dict_get d k) as [v|]; [exists v; reflexivity | discriminate Hk].
    + intros [(d' & H & Hf) | [(l & H & _) | (s & H & _)]]; try discriminate.
      injection H as <-. eapply Forall_impl; [|exact Hf]. intros k (v & Hk).
      rewrite Hk. reflexivity.
Qed.

Theorem load_custom_rules_accepts : forall text rules,
  load_custom_rules (Some text) = Some rules <->
  json_loads text = Some (JArr rules) /\ Forall rule_shape_ok rules.
Proof.
  intros text rules. unfold load_custom_rules.
  destruct (json_loads text) as [[| | | | |l|]|]; split;
    try (intros [H _]; discriminate); try discriminate.
  - destruct (forallb _ l) eqn:E; [|discriminate]. intro H. injection H as <-.
    split; [reflexivity|]. apply Forall_forall. intros r Hr.
    rewrite forallb_forall in E. apply rule_shape_iff, E, Hr.
  - intros [H Hf]. injection H as <-.
    replace (forallb _ l) with true; [reflexivity|]. symmetry.
    apply forallb_forall. intros r Hr. apply rule_shape_iff.
    rewrite Forall_forall in Hf. apply Hf, Hr.
Qed.

End LoadRules.

Section Whitespace.

Local Arguments hex4 : simpl never.
Local Arguments is_high_surrogate : simpl never.
Local Arguments is_low_surrogate : simpl never.
Local Arguments simple_escape : simpl never.
Local Arguments join_surrogates : simpl never.

Lemma ws_cases : forall c, is_ws c = true -> c = 32 \/ c = 9 \/ c = 10 \/ c = 13.
Proof.
  intros c H. unfold is_ws in H.
  repeat (apply orb_prop in H as [H|H]); apply Z.eqb_eq in H; auto.
Qed.

Lemma hex_val_ws : forall c, is_ws c = true -> hex_val c = None.
Proof. intros c H. apply ws_cases in H. destruct H as [-> | [-> | [-> | ->]]]; reflexivity. Qed.

Lemma hex4_ws : forall a b c d,
  is_ws a = true \/ is_ws b = true \/ is_ws c = true \/ is_ws d = true -> hex4 a b c d = None.
Proof.
  intros a b c d H. unfold hex4.
  destruct H as [H | [H | [H | H]]]; rewrite (hex_val_ws _ H);
    destruct (hex_val a), (hex_val b), (hex_val c), (hex_val d); reflexivity.
Qed.

Lemma cons_res_shift : forall c w o, cons_res c (shift_rest w o) = shift_rest w (cons_res c o).
Proof. intros c w [[x r]|]; reflexivity. Qed.

Lemma scanstring_ws : forall w, forallb is_ws w = true -> scanstring w = None.
Proof.
  induction w as [|c w IH]; intro H; [reflexivity|].
  simpl in H. apply andb_prop in H as [Hc H].
  apply ws_cases in Hc. destruct Hc as [-> | [-> | [-> | ->]]]; cbn; try reflexivity.
  rewrite IH by assumption. reflexivity.
Qed.

Lemma forallb_ws_app_inv : forall a b, forallb is_ws (a ++ b) = true -> forallb is_ws b = true.
Proof. intros a b H. rewrite forallb_app in H. apply andb_prop in H. apply H. Qed.

Ltac ws_heads :=
  repeat match goal with
  | H : forallb is_ws (_ :: _) = true |- _ =>
      cbn [forallb] in H; apply andb_prop in H as [? H]
  end.

Lemma hex_short : forall r1 w h1 h2 h3 h4 r2, (length r1 < 4)%nat ->
  forallb is_ws w = true -> h1 :: h2 :: h3 :: h4 :: r2 = r1 ++ w -> hex4 h1 h2 h3 h4 = None.
Proof.
  intros r1 w h1 h2 h3 h4 r2 Hl Hw Heq.
  destruct r1 as [|x1 [|x2 [|x3 [|x4 r1]]]]; cbn in Hl, Heq; try lia;
    inversion Heq; subst; ws_heads; apply hex4_ws; auto.
Qed.

Lemma not_ws_92 : forall c, is_ws c = true -> (c =? 92) = false.
Proof. intros c H. apply ws_cases in H. destruct H as [-> | [-> | [-> | ->]]]; reflexivity. Qed.

Lemma not_ws_117 : forall c, is_ws c = true -> (c =? 117) = false.
Proof. intros c H. apply ws_cases in H. destruct H as [-> | [-> | [-> | ->]]]; reflexivity. Qed.

Lemma lookahead_short : forall r2 w b v k1 k2 k3 k4 r3, (length r2 < 6)%nat ->
  forallb is_ws w = true -> b :: v :: k1 :: k2 :: k3 :: k4 :: r3 = r2 ++ w ->
  (b =? 92) && (v =? 117) = true -> hex4 k1 k2 k3 k4 = None /\ scanstring r2 = None.
Proof.
  intros r2 w b v k1 k2 k3 k4 r3 Hl Hw Heq Hbv.
  apply andb_prop in Hbv as [Hb Hv]. apply Z.eqb_eq in Hb, Hv. subst b v.
  destruct r2 as [|x1 [|x2 [|x3 [|x4 [|x5 [|x6 r2]]]]]]; cbn in Hl, Heq; try lia;
    inversion Heq; subst; ws_heads;
    repeat match goal with
    | H : is_ws 92 = true |- _ => discriminate H
    | H : is_ws 117 = true |- _ => discriminate H
    end;
    split; try (apply hex4_ws; auto); reflexivity.
Qed.


Lemma scanstring_app_ws : forall n s w, (length s <= n)%nat -> forallb is_ws w = true ->
  scanstring (s ++ w) = shift_rest w (scanstring s).
Proof.
  induction n as [|n IH]; intros s w Hl Hw.
  { destruct s; [|cbn in Hl; lia]. rewrite scanstring_ws by assumption. reflexivity. }
  destruct s as [|c s]; [rewrite scanstring_ws by assumption; reflexivity|].
  cbn in Hl. cbn [app scanstring].
  destruct (c =? 34); [reflexivity|].
  destruct (c =? 92).
  - destruct s as [|e r1].
    + destruct w as [|e w]; [reflexivity|]. ws_heads.
      cbn [app]. rewrite (not_ws_117 e) by assumption.
      replace (simple_escape e) with (@None Z); [reflexivity|].
      match goal with H : is_ws e = true |- _ => apply ws_cases in H end.
      destruct H as [-> | [-> | [-> | ->]]]; reflexivity.
    + cbn [app length] in *. destruct (e =? 117).
      * destruct (Nat.lt_ge_cases (length r1) 4) as [Hs|Hs].
        -- replace (match r1 with h1 :: h2 :: h3 :: h4 :: _ => _ | _ => None end) with
             (@None (pystr * pystr))
             by (destruct r1 as [|x1 [|x2 [|x3 [|x4 r1]]]]; cbn in Hs; try lia; reflexivity).
           remember (r1 ++ w) as t eqn:Ht.
           destruct t as [|h1 [|h2 [|h3 [|h4 r2]]]]; try reflexivity.
           rewrite (hex_short r1 w h1 h2 h3 h4 r2 Hs Hw Ht). reflexivity.
        -- destruct r1 as [|h1 [|h2 [|h3 [|h4 r2]]]]; cbn in Hs; try lia.
           cbn [app length] in *.
           destruct (hex4 h1 h2 h3 h4) as [u|]; [|reflexivity].
           destruct (is_high_surrogate u).
           ++ destruct (Nat.lt_ge_cases (length r2) 6) as [H6|H6].
              ** replace (match r2 with b :: v :: k1 :: k2 :: k3 :: k4 :: r3 => _
                                       | _ => cons_res u (scanstring r2) end)
                   with (cons_res u (scanstring r2))
                   by (destruct r2 as [|x1 [|x2 [|x3 [|x4 [|x5 [|x6 r2]]]]]]; cbn in H6;
                       try lia; reflexivity).
                 remember (r2 ++ w) as t eqn:Ht.
                 destruct t as [|b [|v [|k1 [|k2 [|k3 [|k4 r3]]]]]];
                   try (rewrite Ht, IH, cons_res_shift by (assumption || lia); reflexivity).
                 destruct ((b =? 92) && (v =? 117)) eqn:Ebv.
                 --- destruct (lookahead_short r2 w b v k1 k2 k3 k4 r3 H6 Hw Ht Ebv) as [E1 E2].
                     rewrite E1, E2. reflexivity.
                 --- rewrite Ht, IH, cons_res_shift by (assumption || lia). reflexivity.
              ** destruct r2 as [|b [|v [|k1 [|k2 [|k3 [|k4 r3]]]]]]; cbn in H6; try lia.
                 cbn [app length] in *.
                 destruct ((b =? 92) && (v =? 117)).
                 --- destruct (hex4 k1 k2 k3 k4) as [u2|]; [|reflexivity].
                     destruct (is_low_surrogate u2).
                     +++ rewrite IH, cons_res_shift by (assumption || lia). reflexivity.
                     +++ rewrite !app_comm_cons, IH, cons_res_shift by (cbn; assumption || lia).
                         reflexivity.
                 --- rewrite !app_comm_cons, IH, cons_res_shift by (cbn; assumption || lia).
                     reflexivity.
           ++ rewrite IH, cons_res_shift by (assumption || lia). reflexivity.
      * destruct (simple_escape e) as [c'|]; [|reflexivity].
        rewrite IH, cons_res_shift by (assumption || lia). reflexivity.
  - destruct (c <? 32); [reflexivity|].
    rewrite IH, cons_res_shift by (assumption || lia). reflexivity.
Qed.


Lemma span_digits_app_ws : forall s w, forallb is_ws w = true ->
  span_digits (s ++ w) = let '(ds, r) := span_digits s in (ds, r ++ w).
Proof.
  induction s as [|c s IH]; intros w Hw.
  - destruct w as [|c w]; [reflexivity|]. ws_heads. cbn.
    match goal with H : is_ws c = true |- _ => apply ws_cases in H end.
    destruct H as [-> | [-> | [-> | ->]]]; reflexivity.
  - cbn [app span_digits]. destruct (is_digit c); [|reflexivity].
    rewrite IH by assumption. destruct (span_digits s). reflexivity.
Qed.

Lemma is_digit_ws : forall c, is_ws c = true -> is_digit c = false.
Proof. intros c H. apply ws_cases in H. destruct H as [-> | [-> | [-> | ->]]]; reflexivity. Qed.

Lemma ws_not : forall c k, is_ws c = true -> ~ In k [32; 9; 10; 13] -> (c =? k) = false.
Proof.
  intros c k H Hk. apply Z.eqb_neq. intro E. subst c. apply Hk.
  apply ws_cases in H. simpl. destruct H as [-> | [-> | [-> | ->]]]; auto.
Qed.

Ltac ws_false :=
  repeat match goal with
  | H : is_ws ?c = true |- context [?c =? ?k] =>
      rewrite (ws_not c k H) by (simpl; lia)
  | H : is_ws ?c = true |- context [is_digit ?c] => rewrite (is_digit_ws c H)
  | H : is_ws ?c = true |- context [?k <=? ?c] =>
      replace (k <=? c) with false
        by (apply ws_cases in H; destruct H as [-> | [-> | [-> | ->]]]; reflexivity)
  end.

Lemma match_frac_app_ws : forall r w, forallb is_ws w = true ->
  match_frac (r ++ w) = let '(f, r') := match_frac r in (f, r' ++ w).
Proof.
  intros r w Hw. destruct r as [|x [|y r]].
  - destruct w as [|x [|y w]]; [reflexivity | reflexivity |]. ws_heads. cbn. ws_false. reflexivity.
  - destruct w as [|y w]; [reflexivity|]. ws_heads. cbn. ws_false.
    rewrite andb_false_r. reflexivity.
  - cbn [app match_frac]. destruct ((x =? 46) && is_digit y); [|reflexivity].
    rewrite span_digits_app_ws by assumption. destruct (span_digits r). reflexivity.
Qed.

Lemma match_exp_app_ws : forall r w, forallb is_ws w = true ->
  match_exp (r ++ w) = let '(f, r') := match_exp r in (f, r' ++ w).
Proof.
  intros r w Hw. destruct r as [|e r].
  - destruct w as [|e w]; [reflexivity|]. ws_heads. cbn. ws_false. reflexivity.
  - cbn [app match_exp]. destruct ((e =? 101) || (e =? 69)); [|reflexivity].
    destruct r as [|c r].
    + destruct w as [|c w]; [reflexivity|]. ws_heads. cbn [app]. ws_false. cbn.
      ws_false. reflexivity.
    + cbn [app]. destruct ((c =? 43) || (c =? 45)).
      * rewrite span_digits_app_ws by assumption. destruct (span_digits r) as [[|d ds] r2];
          reflexivity.
      * rewrite app_comm_cons, span_digits_app_ws by assumption.
        destruct (span_digits (c :: r)) as [[|d ds] r2]; reflexivity.
Qed.

Lemma match_number_app_ws : forall s w, forallb is_ws w = true ->
  match_number (s ++ w) = shift_rest w (match_number s).
Proof.
  intros s w Hw.
  assert (Hint : forall s1 sign,
    match s1 ++ w with
    | [] => None
    | c :: r =>
        match (if (49 <=? c) && (c <=? 57) then let '(ds, r2) := span_digits r in Some (c :: ds, r2)
               else if c =? 48 then Some ([48], r) else None) with
        | None => None
        | Some (ip, r2) =>
            let '(frac, r3) := match_frac r2 in
            let '(ex, r4) := match_exp r3 in
            match frac, ex with
            | [], [] =>
                if Z.of_nat (length ip) >? int_max_str_digits then None
                else Some (JInt (match sign with [] => digits_value ip
                                                | _ => - digits_value ip end), r2)
            | _, _ => Some (JFloat (sign ++ ip ++ frac ++ ex), r4)
            end
        end
    end
    = shift_rest w
    (match s1 with
    | [] => None
    | c :: r =>
        match (if (49 <=? c) && (c <=? 57) then let '(ds, r2) := span_digits r in Some (c :: ds, r2)
               else if c =? 48 then Some ([48], r) else None) with
        | None => None
        | Some (ip, r2) =>
            let '(frac, r3) := match_frac r2 in
            let '(ex, r4) := match_exp r3 in
            match frac, ex with
            | [], [] =>
                if Z.of_nat (length ip) >? int_max_str_digits then None
                else Some (JInt (match sign with [] => digits_value ip
                                                | _ => - digits_value ip end), r2)
            | _, _ => Some (JFloat (sign ++ ip ++ frac ++ ex), r4)
            end
        end
    end)).
  { intros s1 sign. destruct s1 as [|c r].
    - destruct w as [|c w]; [reflexivity|]. ws_heads. cbn [app].
      ws_false. reflexivity.
    - cbn [app]. destruct ((49 <=? c) && (c <=? 57)).
      + rewrite span_digits_app_ws by assumption. destruct (span_digits r) as [ds r2].
        rewrite match_frac_app_ws by assumption. destruct (match_frac r2) as [fr r3].
        rewrite match_exp_app_ws by assumption. destruct (match_exp r3) as [ex r4].
        destruct fr, ex; try reflexivity; destruct (_ >? _); reflexivity.
      + destruct (c =? 48); [|reflexivity].
        rewrite match_frac_app_ws by assumption. destruct (match_frac r) as [fr r3].
        rewrite match_exp_app_ws by assumption. destruct (match_exp r3) as [ex r4].
        destruct fr, ex; try reflexivity; destruct (_ >? _); reflexivity. }
  unfold match_number. destruct s as [|c r].
  - destruct w as [|c w]; [reflexivity|].
    ws_heads. cbn [app]. ws_false. reflexivity.
  - cbn [app]. destruct (c =? 45).
    + cbv beta iota. apply (Hint r [45]).
    + cbv beta iota. exact (Hint (c :: r) []).
Qed.

Lemma strip_prefix_app_ws : forall p s w, forallb (fun c => negb (is_ws c)) p = true ->
  forallb is_ws w = true ->
  strip_prefix p (s ++ w) = option_map (fun r => r ++ w) (strip_prefix p s).
Proof.
  induction p as [|x p IH]; intros s w Hp Hw; [reflexivity|].
  cbn [forallb] in Hp. apply andb_prop in Hp as [Hx Hp].
  destruct s as [|y s].
  - destruct w as [|y w]; [reflexivity|]. ws_heads. cbn [app strip_prefix].
    replace (x =? y) with false; [reflexivity|].
    symmetry. apply Z.eqb_neq. intro E. subst y. rewrite H in Hx. discriminate Hx.
  - cbn [app strip_prefix]. destruct (x =? y); [|reflexivity]. apply IH; assumption.
Qed.

Lemma match_constant_app_ws : forall s w, forallb is_ws w = true ->
  match_constant (s ++ w) = shift_rest w (match_constant s).
Proof.
  intros s w Hw. unfold match_constant.
  rewrite !strip_prefix_app_ws by (reflexivity || assumption).
  repeat (destruct (strip_prefix _ s); [reflexivity|]). reflexivity.
Qed.

Lemma skip_ws_all : forall w, forallb is_ws w = true -> skip_ws w = [].
Proof.
  induction w as [|c w IH]; intro Hw; [reflexivity|]. ws_heads.
  cbn [skip_ws]. rewrite H. apply IH. assumption.
Qed.

Lemma skip_ws_app_ws : forall r w, forallb is_ws w = true ->
  skip_ws (r ++ w) = match skip_ws r with [] => [] | x => x ++ w end.
Proof.
  induction r as [|c r IH]; intros w Hw.
  - apply skip_ws_all. assumption.
  - cbn [app skip_ws]. destruct (is_ws c); [apply IH; assumption | reflexivity].
Qed.

Lemma scan_once_nil : forall f, scan_once f [] = None.
Proof. destruct f; reflexivity. Qed.

Lemma parse_array_nil : forall f acc, parse_array f [] acc = None.
Proof. destruct f; intros; [reflexivity|]. cbn [parse_array]. rewrite scan_once_nil. reflexivity. Qed.

Lemma parse_object_nil : forall f acc, parse_object f [] acc = None.
Proof. destruct f; reflexivity. Qed.

Lemma scan_once_ws : forall f w, forallb is_ws w = true -> scan_once f w = None.
Proof.
  intros [|f] [|c w] Hw; try reflexivity.
  pose proof (match_constant_app_ws [] (c :: w) Hw) as Hc.
  pose proof (match_number_app_ws [] (c :: w) Hw) as Hn.
  ws_heads. cbn [app scan_once] in *. ws_false.
  rewrite Hc, Hn. reflexivity.
Qed.

Lemma parse_object_ws : forall f w acc, forallb is_ws w = true -> parse_object f w acc = None.
Proof.
  intros [|f] [|c w] acc Hw; try reflexivity. ws_heads. cbn [parse_object]. ws_false. reflexivity.
Qed.

Lemma scan_app_ws : forall f,
  (forall s w, forallb is_ws w = true -> scan_once f (s ++ w) = shift_rest w (scan_once f s)) /\
  (forall s w acc, forallb is_ws w = true ->
     parse_array f (s ++ w) acc = shift_rest w (parse_array f s acc)) /\
  (forall s w acc, forallb is_ws w = true ->
     parse_object f (s ++ w) acc = shift_rest w (parse_object f s acc)).
Proof.
  induction f as [|f [IHs [IHa IHo]]]; [repeat split; reflexivity|].
  split; [|split].
  - intros s w Hw. destruct s as [|c r].
    { cbn [app]. rewrite scan_once_ws by assumption. reflexivity. }
    cbn [app scan_once]. destruct (c =? 34).
    { rewrite (scanstring_app_ws (length r)) by (lia || assumption).
      destruct (scanstring r) as [[x r']|]; reflexivity. }
    destruct (c =? 123).
    { rewrite skip_ws_app_ws by assumption. destruct (skip_ws r) as [|c' r']; [reflexivity|].
      cbn [app]. destruct (c' =? 125); [reflexivity|]. exact (IHo (c' :: r') w [] Hw). }
    destruct (c =? 91).
    { rewrite skip_ws_app_ws by assumption. destruct (skip_ws r) as [|c' r']; [reflexivity|].
      cbn [app]. destruct (c' =? 93); [reflexivity|]. exact (IHa (c' :: r') w [] Hw). }
    change (c :: r ++ w) with ((c :: r) ++ w).
    rewrite match_constant_app_ws, match_number_app_ws by assumption.
    destruct (match_constant (c :: r)) as [[v t]|]; reflexivity.
  - intros s w acc Hw. cbn [parse_array]. rewrite IHs by assumption.
    destruct (scan_once f s) as [[v r]|]; [|reflexivity]. cbn [shift_rest].
    rewrite skip_ws_app_ws by assumption. destruct (skip_ws r) as [|c r']; [reflexivity|].
    cbn [app]. destruct (c =? 93); [reflexivity|]. destruct (c =? 44); [|reflexivity].
    rewrite skip_ws_app_ws by assumption. destruct (skip_ws r') as [|c2 r2].
    + rewrite parse_array_nil. reflexivity.
    + apply IHa. assumption.
  - intros s w acc Hw. destruct s as [|c r].
    { cbn [app]. rewrite !parse_object_ws by (assumption || reflexivity). reflexivity. }
    cbn [app parse_object]. destruct (c =? 34); [|reflexivity].
    rewrite (scanstring_app_ws (length r)) by (lia || assumption).
    destruct (scanstring r) as [[k r1]|]; [|reflexivity]. cbn [shift_rest].
    rewrite skip_ws_app_ws by assumption. destruct (skip_ws r1) as [|c1 r2]; [reflexivity|].
    cbn [app]. destruct (c1 =? 58); [|reflexivity].
    rewrite skip_ws_app_ws by assumption. destruct (skip_ws r2) as [|c2 r2'].
    + rewrite scan_once_nil. reflexivity.
    + rewrite IHs by assumption.
      destruct (scan_once f (c2 :: r2')) as [[v r3]|]; [|reflexivity]. cbn [shift_rest].
      rewrite skip_ws_app_ws by assumption. destruct (skip_ws r3) as [|c3 r4]; [reflexivity|].
      cbn [app]. destruct (c3 =? 125); [reflexivity|]. destruct (c3 =? 44); [|reflexivity].
      rewrite skip_ws_app_ws by assumption. destruct (skip_ws r4) as [|c4 r5].
      * rewrite parse_object_nil. reflexivity.
      * apply IHo. assumption.
Qed.

Lemma cons_res_some : forall c o x r, cons_res c o = Some (x, r) -> exists x', o = Some (x', r).
Proof. intros c [[y t]|] x r H; cbn in H; [|discriminate H]. injection H as _ <-. eauto. Qed.

Lemma scanstring_len : forall n s x r, (length s <= n)%nat ->
  scanstring s = Some (x, r) -> (length r < length s)%nat.
Proof.
  induction n as [|n IH]; intros s x r Hl H.
  { destruct s; [discriminate H | cbn in Hl; lia]. }
  destruct s as [|c s]; [discriminate H|]. cbn [scanstring] in H. cbn [length] in Hl |- *.
  repeat match type of H with
  | context [match ?e with _ => _ end] =>
      first [is_var e; destruct e | let E := fresh "E" in destruct e eqn:E]
  end; cbn [length] in *; try discriminate H;
  first
  [ injection H as _ <-; lia
  | match type of H with
    | cons_res _ (scanstring ?t) = _ =>
        apply cons_res_some in H as [? H];
        pose proof (IH t _ _ ltac:(cbn [length] in *; lia) H); cbn [length] in *; lia
    end ].
Qed.

Lemma span_digits_len : forall s ds r, span_digits s = (ds, r) -> (length r <= length s)%nat.
Proof.
  induction s as [|c s IH]; intros ds r H; cbn [span_digits] in H.
  - injection H as _ <-. lia.
  - destruct (is_digit c).
    + destruct (span_digits s) as [ds' r'] eqn:E. injection H as _ <-.
      pose proof (IH _ _ eq_refl). cbn [length]. lia.
    + injection H as _ <-. lia.
Qed.

Lemma match_frac_len : forall s f r, match_frac s = (f, r) -> (length r <= length s)%nat.
Proof.
  intros s f r H. unfold match_frac in H.
  destruct s as [|x [|y s]]; try (injection H as _ <-; lia).
  destruct ((x =? 46) && is_digit y); [|injection H as _ <-; lia].
  destruct (span_digits s) as [ds r'] eqn:E. injection H as _ <-.
  pose proof (span_digits_len _ _ _ E). cbn [length]. lia.
Qed.

Lemma match_exp_len : forall s e r, match_exp s = (e, r) -> (length r <= length s)%nat.
Proof.
  intros s e r H. unfold match_exp in H.
  destruct s as [|x s]; [injection H as _ <-; lia|].
  destruct ((x =? 101) || (x =? 69)); [|injection H as _ <-; lia].
  destruct (match s with c :: r' => if (c =? 43) || (c =? 45) then ([c], r') else ([], s)
            | [] => ([], s) end) as [sg r1] eqn:E1.
  assert (length r1 <= length s)%nat.
  { destruct s as [|c s]; [injection E1 as _ <-; lia|].
    destruct ((c =? 43) || (c =? 45)); injection E1 as _ <-; cbn [length]; lia. }
  destruct (span_digits r1) as [[|d ds] r2] eqn:E2; injection H as _ <-; [cbn [length]; lia|].
  pose proof (span_digits_len _ _ _ E2). cbn [length]. lia.
Qed.

Lemma match_number_len : forall s v r, match_number s = Some (v, r) -> (length r < length s)%nat.
Proof.
  intros s v r H. unfold match_number in H.
  destruct (match s with c :: r0 => if c =? 45 then ([45], r0) else ([], s) | [] => ([], s) end)
    as [sign s1] eqn:Es.
  assert (length s1 <= length s)%nat.
  { destruct s as [|c s]; [injection Es as _ <-; lia|].
    destruct (c =? 45); injection Es as _ <-; cbn [length]; lia. }
  destruct s1 as [|c r0]; [discriminate H|].
  destruct (if (49 <=? c) && (c <=? 57) then let '(ds, r2) := span_digits r0 in Some (c :: ds, r2)
            else if c =? 48 then Some ([48], r0) else None) as [[ip r2]|] eqn:Ei;
    [|discriminate H].
  assert (length r2 <= length r0)%nat.
  { destruct ((49 <=? c) && (c <=? 57)).
    - destruct (span_digits r0) as [ds r2'] eqn:E. injection Ei as _ <-.
      apply (span_digits_len _ _ _ E).
    - destruct (c =? 48); [injection Ei as _ <-; lia | discriminate Ei]. }
  destruct (match_frac r2) as [fr r3] eqn:Ef. destruct (match_exp r3) as [ex r4] eqn:Ee.
  pose proof (match_frac_len _ _ _ Ef). pose proof (match_exp_len _ _ _ Ee).
  cbn [length] in *.
  destruct fr, ex;
    try (injection H as _ <-; lia);
    destruct (_ >? _); try discriminate H; injection H as _ <-; lia.
Qed.

Lemma strip_prefix_len : forall p s r, strip_prefix p s = Some r ->
  (length r + length p = length s)%nat.
Proof.
  induction p as [|x p IH]; intros s r H; cbn [strip_prefix] in H.
  - injection H as <-. cbn [length]. lia.
  - destruct s as [|y s]; [discriminate H|]. destruct (x =? y); [|discriminate H].
    apply IH in H. cbn [length]. lia.
Qed.

Lemma match_constant_len : forall s v r, match_constant s = Some (v, r) ->
  (length r < length s)%nat.
Proof.
  intros s v r H. unfold match_constant in H.
  repeat match type of H with
  | context [match strip_prefix ?p s with _ => _ end] =>
      let E := fresh "E" in
      destruct (strip_prefix p s) eqn:E;
      [injection H as _ <-; apply strip_prefix_len in E; cbn in E; lia|]
  end.
  discriminate H.
Qed.

Lemma skip_ws_len : forall s, (length (skip_ws s) <= length s)%nat.
Proof.
  induction s as [|c s IH]; [reflexivity|]. cbn [skip_ws].
  destruct (is_ws c); cbn [length]; lia.
Qed.

Lemma scan_len : forall f,
  (forall s v r, scan_once f s = Some (v, r) -> (length r < length s)%nat) /\
  (forall s acc v r, parse_array f s acc = Some (v, r) -> (length r < length s)%nat) /\
  (forall s acc v r, parse_object f s acc = Some (v, r) -> (length r < length s)%nat).
Proof.
  induction f as [|f [IHs [IHa IHo]]]; [repeat split; discriminate|].
  split; [|split].
  - intros s v r H. destruct s as [|c t]; [discriminate H|]. cbn [scan_once] in H.
    destruct (c =? 34).
    { destruct (scanstring t) as [[x r']|] eqn:E; [|discriminate H]. injection H as _ <-.
      pose proof (scanstring_len (length t) t x r' (le_n _) E). cbn [length]. lia. }
    destruct (c =? 123).
    { pose proof (skip_ws_len t). destruct (skip_ws t) as [|c' r']; [discriminate H|].
      destruct (c' =? 125).
      - injection H as _ <-. cbn [length] in *. lia.
      - apply IHo in H. cbn [length] in *. lia. }
    destruct (c =? 91).
    { pose proof (skip_ws_len t). destruct (skip_ws t) as [|c' r']; [discriminate H|].
      destruct (c' =? 93).
      - injection H as _ <-. cbn [length] in *. lia.
      - apply IHa in H. cbn [length] in *. lia. }
    destruct (match_constant (c :: t)) as [[v' r']|] eqn:E.
    + injection H as <- <-. apply (match_constant_len _ _ _ E).
    + apply (match_number_len _ _ _ H).
  - intros s acc v r H. cbn [parse_array] in H.
    destruct (scan_once f s) as [[v1 r1]|] eqn:E; [|discriminate H].
    apply IHs in E. pose proof (skip_ws_len r1).
    destruct (skip_ws r1) as [|c r']; [discriminate H|].
    destruct (c =? 93).
    + injection H as _ <-. cbn [length] in *. lia.
    + destruct (c =? 44); [|discriminate H]. apply IHa in H.
      pose proof (skip_ws_len r'). cbn [length] in *. lia.
  - intros s acc v r H. destruct s as [|c t]; [destruct f; discriminate H|].
    cbn [parse_object] in H. destruct (c =? 34); [|discriminate H].
    destruct (scanstring t) as [[k r1]|] eqn:E1; [|discriminate H].
    pose proof (scanstring_len (length t) t k r1 (le_n _) E1).
    pose proof (skip_ws_len r1). destruct (skip_ws r1) as [|c1 r2]; [discriminate H|].
    destruct (c1 =? 58); [|discriminate H].
    destruct (scan_once f (skip_ws r2)) as [[v3 r3]|] eqn:E3; [|discriminate H].
    apply IHs in E3. pose proof (skip_ws_len r2).
    pose proof (skip_ws_len r3). destruct (skip_ws r3) as [|c3 r4]; [discriminate H|].
    destruct (c3 =? 125).
    + injection H as _ <-. cbn [length] in *. lia.
    + destruct (c3 =? 44); [|discriminate H]. apply IHo in H.
      pose proof (skip_ws_len r4). cbn [length] in *. lia.
Qed.

Lemma fuel_step : forall f,
  (forall s, (2 * length s + 1 <= f)%nat -> scan_once (S f) s = scan_once f s) /\
  (forall s acc, (2 * length s + 2 <= f)%nat -> parse_array (S f) s acc = parse_array f s acc) /\
  (forall s acc, (2 * length s + 2 <= f)%nat -> parse_object (S f) s acc = parse_object f s acc).
Proof.
  induction f as [|f [IHs [IHa IHo]]]; [repeat split; intros; lia|].
  split; [|split].
  - intros s Hf. destruct s as [|c t]; [reflexivity|].
    cbn [scan_once]. cbn [length] in Hf. pose proof (skip_ws_len t).
    destruct (c =? 34); [reflexivity|].
    destruct (c =? 123).
    { destruct (skip_ws t) as [|c' r']; [reflexivity|].
      destruct (c' =? 125); [reflexivity|]. apply IHo. cbn [length] in *. lia. }
    destruct (c =? 91); [|reflexivity].
    destruct (skip_ws t) as [|c' r']; [reflexivity|].
    destruct (c' =? 93); [reflexivity|]. apply IHa. cbn [length] in *. lia.
  - intros s acc Hf. cbn [parse_array]. rewrite IHs by lia.
    destruct (scan_once f s) as [[v r]|] eqn:E; [|reflexivity].
    apply (proj1 (scan_len f)) in E. pose proof (skip_ws_len r).
    destruct (skip_ws r) as [|c r']; [reflexivity|].
    destruct (c =? 93); [reflexivity|]. destruct (c =? 44); [|reflexivity].
    pose proof (skip_ws_len r'). apply IHa. cbn [length] in *. lia.
  - intros s acc Hf. destruct s as [|c t]; [reflexivity|].
    cbn [parse_object]. cbn [length] in Hf. destruct (c =? 34); [|reflexivity].
    destruct (scanstring t) as [[k r1]|] eqn:E1; [|reflexivity].
    pose proof (scanstring_len (length t) t k r1 (le_n _) E1).
    pose proof (skip_ws_len r1). destruct (skip_ws r1) as [|c1 r2]; [reflexivity|].
    destruct (c1 =? 58); [|reflexivity].
    pose proof (skip_ws_len r2). cbn [length] in *.
    rewrite IHs by lia.
    destruct (scan_once f (skip_ws r2)) as [[v r3]|] eqn:E3; [|reflexivity].
    apply (proj1 (scan_len f)) in E3. pose proof (skip_ws_len r3).
    destruct (skip_ws r3) as [|c3 r4]; [reflexivity|].
    destruct (c3 =? 125); [reflexivity|]. destruct (c3 =? 44); [|reflexivity].
    pose proof (skip_ws_len r4). apply IHo. cbn [length] in *. lia.
Qed.

Lemma scan_once_fuel : forall k f s, (2 * length s + 1 <= f)%nat ->
  scan_once (k + f) s = scan_once f s.
Proof.
  induction k as [|k IH]; intros f s Hf; [reflexivity|].
  cbn [Nat.add]. rewrite (proj1 (fuel_step (k + f))) by lia. apply IH. assumption.
Qed.

Lemma skip_ws_ws_app : forall w t, forallb is_ws w = true -> skip_ws (w ++ t) = skip_ws t.
Proof.
  induction w as [|c w IH]; intros t Hw; [reflexivity|]. ws_heads.
  cbn [app skip_ws]. rewrite H. apply IH. assumption.
Qed.

Lemma json_loads_ws : forall w1 s w2, forallb is_ws w1 = true -> forallb is_ws w2 = true ->
  json_loads (w1 ++ s ++ w2) = json_loads s.
Proof.
  intros w1 s w2 H1 H2. unfold json_loads.
  rewrite skip_ws_ws_app, skip_ws_app_ws by assumption.
  pose proof (skip_ws_len s).
  destruct (skip_ws s) as [|c t] eqn:E; [rewrite !scan_once_nil; reflexivity|].
  rewrite (proj1 (scan_app_ws _)) by assumption.
  rewrite !length_app.
  replace (2 * (length w1 + (length s + length w2)) + 2)%nat
    with (2 * (length w1 + length w2) + (2 * length s + 2))%nat by lia.
  rewrite scan_once_fuel by lia.
  destruct (scan_once (2 * length s + 2) (c :: t)) as [[v r]|]; [|reflexivity].
  cbn [shift_rest]. rewrite skip_ws_app_ws by assumption.
  destruct (skip_ws r); reflexivity.
Qed.

End Whitespace.

Section LintWs.
Variable py_upper : pystr -> pystr.
Variable float_repr : pystr -> pystr.
Variable uni_printable : Z -> bool.

Theorem parse_lint_output_ws : forall w1 s w2 playbook_path,
  forallb is_ws w1 = true -> forallb is_ws w2 = true ->
  parse_ansible_lint_output py_upper float_repr uni_printable (Some (w1 ++ s ++ w2)) playbook_path
  = parse_ansible_lint_output py_upper float_repr uni_printable (Some s) playbook_path.
Proof.
  intros w1 s w2 path H1 H2. unfold parse_ansible_lint_output.
  destruct s as [|c t].
  - destruct (w1 ++ [] ++ w2) as [|x y] eqn:E; [reflexivity|].
    rewrite <- E, json_loads_ws by assumption. reflexivity.
  - destruct (w1 ++ (c :: t) ++ w2) as [|x y] eqn:E; [destruct w1; discriminate E|].
    rewrite <- E, json_loads_ws by assumption. reflexivity.
Qed.
End LintWs.

Theorem load_custom_rules_ws : forall w1 text w2,
  forallb is_ws w1 = true -> forallb is_ws w2 = true ->
  load_custom_rules (Some (w1 ++ text ++ w2)) = load_custom_rules (Some text).
Proof.
  intros w1 text w2 H1 H2. unfold load_custom_rules. rewrite json_loads_ws by assumption.
  reflexivity.
Qed.

(** ** Further runs on sample inputs *)

Lemma scan_lines_full_skips_re_error_witness :
  scan_lines_full demo_float_repr demo_printable demo_rt (splitlines demo_playbook) 0
    ([] ++ pattern_rule "(" :: [demo_rule_json]) (lit "site.yml")
  = scan_lines_full demo_float_repr demo_printable demo_rt (splitlines demo_playbook) 0
      ([] ++ [demo_rule_json]) (lit "site.yml").
Proof.
  apply (scan_lines_full_skips_re_error demo_float_repr demo_printable demo_rt _ _ _ _ _ _
           (lit "(") (JStr (lit "R0"))); reflexivity.
Defined.

Lemma apply_custom_rules_line_endings_witness :
  apply_custom_rules demo_re_compile (join_lines demo_lines [true; true]) [demo_rule]
    (lit "site.yml")
  = apply_custom_rules demo_re_compile (join_lines demo_lines [false; false]) [demo_rule]
      (lit "site.yml").
Proof.
  apply (apply_custom_rules_line_endings demo_re_compile demo_lines [true; true] [false; false]);
    try reflexivity.
  repeat constructor.
Defined.

Lemma generate_report_bare_filename_witness :
  generate_report demo_float_repr io_ok (lit "site.yml") [] (lit "report.json") (lit "T")
  = ReportFailed.
Proof. apply generate_report_bare_filename. reflexivity. Defined.

Lemma generate_report_ascii_witness :
  all_ascii (encode const_float_repr 0
               (build_report (lit "site.yml") [demo_issue; JFloat (lit "0.5")] (lit "T")))
  = true.
Proof.
  assert (Hw : generate_report const_float_repr io_ok (lit "site.yml")
                 [demo_issue; JFloat (lit "0.5")] (lit "out/report.json") (lit "T")
               = ReportWritten (lit "out/report.json")
                   (encode const_float_repr 0
                      (build_report (lit "site.yml") [demo_issue; JFloat (lit "0.5")]
                         (lit "T"))))
    by (vm_compute; reflexivity).
  destruct (generate_report_ascii const_float_repr (fun _ => eq_refl) io_ok (lit "site.yml")
              [demo_issue; JFloat (lit "0.5")] (lit "out/report.json") (lit "T") _ _ Hw)
    as [_ H].
  exact H.
Defined.

Lemma main_files_refines_main_witness :
  demo_main_files (demo_files demo_rules_file)
  = demo_main (env_of_files (demo_files demo_rules_file) [demo_rule]).
Proof.
  apply (main_files_refines_main demo_re_compile demo_upper demo_float_repr demo_printable
           (lit "site.yml") (lit "out/report.json") (demo_files demo_rules_file)
           [demo_rule_json] [demo_rule]).
  - vm_compute. reflexivity.
  - constructor; [vm_compute; reflexivity | constructor].
Defined.

Lemma main_files_rule_without_pattern_witness :
  demo_main_files (demo_files string_rule_file) = early_exit.
Proof.
  apply (main_files_rule_without_pattern demo_re_compile demo_upper demo_float_repr
           demo_printable (lit "site.yml") (lit "out/report.json") (demo_files string_rule_file)
           [JStr (lit "id pattern description severity")] demo_playbook
           (JStr (lit "id pattern description severity"))).
  - reflexivity.
  - vm_compute. reflexivity.
  - reflexivity.
  - vm_compute. intro H. discriminate H.
  - left. reflexivity.
  - intros p H. discriminate H.
Defined.

Lemma parse_lint_output_ws_witness :
  demo_parse ([32] ++ lit "[{}]" ++ [10]) = demo_parse (lit "[{}]").
Proof.
  exact (parse_lint_output_ws demo_upper demo_float_repr demo_printable [32] (lit "[{}]") [10]
           (lit "site.yml") eq_refl eq_refl).
Defined.

Lemma load_custom_rules_ws_witness :
  load_custom_rules (Some ([10; 32] ++ demo_rules_file ++ [10]))
  = load_custom_rules (Some demo_rules_file).
Proof. apply load_custom_rules_ws; reflexivity. Defined.
